(** * Frame sampling engine of runanalysis.ai

    A shallow embedding of the three frame samplers of the repository:

    - [SimpleExtractor]: the first [VideoFrameExtractor] class of
      [public/js/video-utils-new.js] (lines 5-253), a sequential loop over
      the planned timestamps;
    - [SequenceExtractor]: the second [VideoFrameExtractor] class of the same
      file (lines 361-1084), which recurses through [extractFrameSequence];
    - [Server]: [extractVideoFrames] of [server/index.js] (lines 679-760),
      one ffmpeg invocation per timestamp.

    Around them: the seekable ranges, the scaled dimensions and the life
    cycle of the second extractor ([Seekable], [Dimensions],
    [SequenceLifecycle]), the loading overlay and the progress handler of
    the page ([LoadingOverlay]), [formatTime] ([TimeFormat]) and the
    duration probe of the server ([Probe]).

    JavaScript numbers are modelled by [JsNum.num]: rationals extended with
    the two infinities and NaN.  The arithmetic of the planners and of the
    progress percentage is that of IEEE 754 doubles: each product, quotient
    and difference is rounded to the nearest double, ties to even, with
    subnormal numbers and overflow to infinity ([Double]); so is that of
    the scaled dimensions.  Minimum, maximum, floor, ceiling, [Math.round]
    and the remainder are exact on doubles.  [Seekable] and [TimeFormat]
    compare or floor the differences and quotients they form; they are
    modelled with the exact difference and quotient.  The sign of zero is
    not modelled. *)

From Stdlib Require Import String.
From Stdlib Require Import QArith Qround Qminmax Qabs Qpower Qreduction.
From Stdlib Require Import ZArith Lia Lqa Bool.
From Stdlib Require Import DecimalString Sorted.
From Stdlib Require Import List Permutation.
Import ListNotations.

Local Open Scope Q_scope.

(* ================================================================== *)
(** * JavaScript numbers *)
(* ================================================================== *)

Module JsNum.

Inductive num : Type :=
| Fin (q : Q)
| PInf
| NInf
| NaN.

Definition of_nat (n : nat) : num := Fin (inject_Z (Z.of_nat n)).

(** [Math.min]. *)
Definition nmin (a b : num) : num :=
  match a, b with
  | NaN, _ | _, NaN => NaN
  | NInf, _ | _, NInf => NInf
  | PInf, x | x, PInf => x
  | Fin p, Fin q => Fin (Qmin p q)
  end.

(** [a * b]. *)
Definition nmul (a b : num) : num :=
  match a, b with
  | NaN, _ | _, NaN => NaN
  | Fin p, Fin q => Fin (p * q)
  | Fin p, PInf | PInf, Fin p =>
      match p ?= 0 with Gt => PInf | Lt => NInf | Eq => NaN end
  | Fin p, NInf | NInf, Fin p =>
      match p ?= 0 with Gt => NInf | Lt => PInf | Eq => NaN end
  | PInf, PInf | NInf, NInf => PInf
  | PInf, NInf | NInf, PInf => NInf
  end.

(** [a / b]. *)
Definition ndiv (a b : num) : num :=
  match a, b with
  | NaN, _ | _, NaN => NaN
  | Fin p, Fin q =>
      if Qeq_bool q 0
      then match p ?= 0 with Gt => PInf | Lt => NInf | Eq => NaN end
      else Fin (p / q)
  | Fin _, PInf | Fin _, NInf => Fin 0
  | PInf, Fin q => match q ?= 0 with Lt => NInf | _ => PInf end
  | NInf, Fin q => match q ?= 0 with Lt => PInf | _ => NInf end
  | PInf, PInf | PInf, NInf | NInf, PInf | NInf, NInf => NaN
  end.

(** [a - b]. *)
Definition nsub (a b : num) : num :=
  match a, b with
  | NaN, _ | _, NaN => NaN
  | Fin p, Fin q => Fin (p - q)
  | Fin _, PInf => NInf
  | Fin _, NInf => PInf
  | PInf, Fin _ | PInf, NInf => PInf
  | NInf, Fin _ | NInf, PInf => NInf
  | PInf, PInf | NInf, NInf => NaN
  end.

(** [Math.ceil] and [Math.floor]. *)
Definition nceil (a : num) : num :=
  match a with Fin q => Fin (inject_Z (Qceiling q)) | x => x end.

Definition nfloor (a : num) : num :=
  match a with Fin q => Fin (inject_Z (Qfloor q)) | x => x end.

(** [a <= b] and [a < b]; every comparison with NaN is false. *)
Definition nle (a b : num) : bool :=
  match a, b with
  | NaN, _ | _, NaN => false
  | NInf, _ | _, PInf => true
  | PInf, _ | _, NInf => false
  | Fin p, Fin q => Qle_bool p q
  end.

Definition nlt (a b : num) : bool :=
  match a, b with
  | NaN, _ | _, NaN => false
  | PInf, _ | _, NInf => false
  | NInf, _ | _, PInf => true
  | Fin p, Fin q => negb (Qle_bool q p)
  end.

(** [a >= b]. *)
Definition nge (a b : num) : bool := nle b a.

Definition isNaN (a : num) : bool :=
  match a with NaN => true | _ => false end.

(** Truthiness of a number: [0] and [NaN] are falsy. *)
Definition truthy (a : num) : bool :=
  match a with
  | NaN => false
  | Fin q => negb (Qeq_bool q 0)
  | PInf | NInf => true
  end.

(** Numeric equality ([Fin (1#2)] and [Fin (2#4)] are the same number). *)
Definition num_eq (a b : num) : Prop :=
  match a, b with
  | Fin p, Fin q => p == q
  | PInf, PInf | NInf, NInf | NaN, NaN => True
  | _, _ => False
  end.

Definition is_integer (q : Q) : Prop := exists z : Z, q == inject_Z z.

End JsNum.

Import JsNum.

Declare Scope num_scope.
Delimit Scope num_scope with num.
Infix "=n=" := num_eq (at level 70, no associativity) : num_scope.
Local Open Scope num_scope.

(* ================================================================== *)
(** * IEEE 754 doubles *)
(* ================================================================== *)

Module Double.

(** A finite double is a rational [m * 2^e] with [|m| < 2^53] and
    [e >= -1074]. *)
Definition pow2 (e : Z) : Q := 2 ^ e.

Definition representable (x : Q) : Prop :=
  exists m e : Z,
    x == inject_Z m * pow2 e /\ (Z.abs m < 2 ^ 53)%Z /\ (-1074 <= e)%Z.

(** [floor (log2 x)] for [0 < x]. *)
Definition ilog2 (x : Q) : Z :=
  let k := (Z.log2 (Qnum x) - Z.log2 (Zpos (Qden x)))%Z in
  if Qle_bool (pow2 k) x then k else (k - 1)%Z.

(** The nearest integer; a half goes to the even neighbour. *)
Definition rne (x : Q) : Z :=
  let f := Qfloor x in
  match Qcompare (x - inject_Z f) (1 # 2) with
  | Lt => f
  | Gt => (f + 1)%Z
  | Eq => if Z.even f then f else (f + 1)%Z
  end.

(** The exponent of the last place of the doubles around [x > 0]: 52
    places below the leading bit, and never below [2^-1074]. *)
Definition exponent (x : Q) : Z := Z.max (ilog2 x - 52) (-1074).

Definition round_pos (x : Q) : Q :=
  let e := exponent x in
  Qred (inject_Z (rne (x / pow2 e)) * pow2 e).

(** The double nearest to the real number [x] (round to nearest, ties to
    even), before the range is looked at. *)
Definition round (x : Q) : Q :=
  match Qnum x with
  | Z0 => 0
  | Zpos _ => round_pos x
  | Zneg _ => - round_pos (- x)
  end.

(** [Number.MAX_VALUE]. *)
Definition max_value : Q := inject_Z (2 ^ 53 - 1) * pow2 971.

(** The value of an arithmetic operation whose exact result is [x]: the
    nearest double, or an infinity when that lies beyond the range. *)
Definition number (x : Q) : num :=
  let y := round x in
  if Qle_bool y max_value
  then if Qle_bool (- max_value) y then Fin y else NInf
  else PInf.

(** [a * b], [a / b] and [a - b] on doubles.  Only a finite result is
    rounded; the special values behave as in [nmul], [ndiv] and [nsub]. *)
Definition mul (a b : num) : num :=
  match a, b with
  | Fin p, Fin q => number (p * q)
  | _, _ => nmul a b
  end.

Definition div (a b : num) : num :=
  match a, b with
  | Fin p, Fin q => if Qeq_bool q 0 then ndiv a b else number (p / q)
  | _, _ => ndiv a b
  end.

Definition sub (a b : num) : num :=
  match a, b with
  | Fin p, Fin q => number (p - q)
  | _, _ => nsub a b
  end.

(** The literal [0.1], the end guard of both planners. *)
Definition tenth : Q := round (1 # 10).

End Double.

(* ================================================================== *)
(** * More of JavaScript's arithmetic *)
(* ================================================================== *)

Module JsMath.

(** [Math.abs]. *)
Definition nabs (a : num) : num :=
  match a with
  | Fin q => Fin (Qabs q)
  | PInf | NInf => PInf
  | NaN => NaN
  end.

(** [Math.max]. *)
Definition nmax (a b : num) : num :=
  match a, b with
  | NaN, _ | _, NaN => NaN
  | PInf, _ | _, PInf => PInf
  | NInf, x | x, NInf => x
  | Fin p, Fin q => Fin (Qmax p q)
  end.

(** [Math.round]: the nearest integer, halves upwards. *)
Definition nround (a : num) : num :=
  match a with Fin q => Fin (inject_Z (Qfloor (q + (1 # 2)))) | x => x end.



End JsMath.

Import JsMath.

(* ================================================================== *)
(** * Seekable ranges of the second extractor *)
(* ================================================================== *)

Module Seekable.

(** An element of [seekableRanges], lines 782-788: [{start, end}]. *)
Record range : Type := mkRange {
  start : num;
  finish : num
}.

(** The predicate of [find], lines 791-793. *)
Definition contains (targetTime : num) (r : range) : bool :=
  nge targetTime (start r) && nle targetTime (finish r).

(** One comparison of lines 805-816: [minDistance] and [nearestTime] after
    a candidate end point has been looked at. *)
Definition consider (targetTime : num) (best : num * option num)
           (candidate : num) : num * option num :=
  let dist := nabs (nsub candidate targetTime) in
  if nlt dist (fst best) then (dist, Some candidate) else best.

(** The body of the [for] loop of lines 803-817. *)
Definition scan (targetTime : num) (best : num * option num) (r : range)
  : num * option num :=
  consider targetTime (consider targetTime best (start r)) (finish r).

(** [getNearestSeekableTime], lines 770-820.  [seekable] is [None] when
    there is no video element or it has no [seekable] object.  The canvas
    the method creates on the side when none exists does not bear on the
    result and is left out. *)
Definition getNearestSeekableTime (seekable : option (list range))
           (targetTime : num) : num :=
  match seekable with
  | None => targetTime
  | Some [] => targetTime
  | Some seekableRanges =>
      match find (contains targetTime) seekableRanges with
      | Some _ => targetTime
      | None =>
          match snd (fold_left (scan targetTime) seekableRanges (PInf, None)) with
          | Some nearestTime => nearestTime
          | None => targetTime
          end
      end
  end.

(** A range with finite bounds. *)
Definition of_bounds (b : Q * Q) : range := mkRange (Fin (fst b)) (Fin (snd b)).

(** The end points of a list of bounds, in the order the loop visits them. *)
Definition end_points (bounds : list (Q * Q)) : list Q :=
  flat_map (fun b => [fst b; snd b]) bounds.

End Seekable.

(* ================================================================== *)
(** * The first extractor: a sequential sampling loop *)
(* ================================================================== *)

Module SimpleExtractor.

(** [frameData] of lines 171-175; the display field [timestamp] is
    [formatTime(time)] and carries no further information. *)
Record FrameData : Type := mkFrameData {
  url : string;
  time : num
}.

(** The [File] pushed at lines 186-191: the frame index that names it and
    the blob it wraps. *)
Record File : Type := mkFile {
  file_index : nat;
  blob : string
}.

(** The fields of [this].  A callback slot holds [true] when a function is
    installed; the calls made through the slots are recorded as [event]s. *)
Record extractor : Type := mkExtractor {
  frames : list File;
  previewFrames : list FrameData;
  frameRate : num;
  maxDuration : num;
  isProcessing : bool;
  currentVideo : bool;
  currentCanvas : bool;
  onProgress : bool;
  onComplete : bool;
  onError : bool
}.

(** The constructor, lines 6-18. *)
Definition constructor : extractor :=
  mkExtractor [] [] (Fin 2) (Fin 30) false false false false false false.

(** [time.toFixed(2)], kept symbolic. *)
Inductive fixed : Type := toFixed2 (t : num).

(** What an observer of a run sees, in order: the log line of each attempt,
    the calls made through the callback slots, and the host's own calls of
    [cleanup()]. *)
Inductive event : Type :=
| Log (current : nat) (total : num) (t : fixed)       (* console.log, line 150 *)
| Progress (current : nat) (total : num) (t : fixed)  (* onProgress, lines 195-201 *)
| Complete (result : list FrameData)                  (* onComplete, lines 213-215 *)
| Error (message : string)                            (* onError, lines 221-223 *)
| Cleanup.                                            (* the host calls cleanup() *)

(** How the promise of [extractFrames] ends.  [Suspended]: it never
    settles, because the run waits for an event that does not come. *)
Inductive outcome : Type :=
| Returned (result : list FrameData)
| Threw (message : string)
| Suspended.

(** ** The environment of a run *)

(** What the decoder reports for the file: [video.onerror], or
    [video.onloadedmetadata] with [video.duration]. *)
Inductive load_result : Type :=
| LoadFails
| Metadata (videoDuration : num).

(** The encode step of lines 170-183 for a non-empty frame: [toDataURL]
    throws, or it yields a data URL and [toBlob] yields a blob or [null]. *)
Inductive encoded : Type :=
| EncodeThrows
| Encoded (dataUrl : string) (blobData : option string).

(** The capture of lines 154-161: drawing or reading back throws, or
    [getImageData] yields the channel values. *)
Inductive capture : Type :=
| CaptureThrows
| Pixels (data : list Z) (enc : encoded).

(** One loop iteration suspends three times (seek, [toBlob], the 50 ms
    delay).  While it is suspended the host may call [cleanup()].
    [seekVideo] (lines 105-120) resolves at once when the video is already
    at the time, and otherwise only when the video emits [seeked]; it has
    no error path and no timeout.  [seeked] is [false] when that event
    never comes (the seek is aborted, the decoder fails): the iteration
    then stays suspended for ever. *)
Record frame_env : Type := mkFrameEnv {
  seeked : bool;
  cleanup_during_seek : bool;
  shot : capture;
  cleanup_during_blob : bool;
  cleanup_during_delay : bool
}.

Record env : Type := mkEnv {
  load : load_result;
  cleanup_during_load : bool;
  frame : nat -> frame_env
}.

(** ** The methods *)

(** [cleanup()], lines 23-42. *)
Definition cleanup (x : extractor) : extractor :=
  mkExtractor [] [] (frameRate x) (maxDuration x) false false false
              (onProgress x) (onComplete x) (onError x).

Definition host (calls_cleanup : bool) (x : extractor) : extractor :=
  if calls_cleanup then cleanup x else x.

Definition mark (calls_cleanup : bool) : list event :=
  if calls_cleanup then [Cleanup] else [].

Definition push_preview (f : FrameData) (x : extractor) : extractor :=
  mkExtractor (frames x) (previewFrames x ++ [f]) (frameRate x) (maxDuration x)
              (isProcessing x) (currentVideo x) (currentCanvas x)
              (onProgress x) (onComplete x) (onError x).

Definition push_frame (f : File) (x : extractor) : extractor :=
  mkExtractor (frames x ++ [f]) (previewFrames x) (frameRate x) (maxDuration x)
              (isProcessing x) (currentVideo x) (currentCanvas x)
              (onProgress x) (onComplete x) (onError x).

(** Lines 130-132. *)
Definition begin_run (x : extractor) : extractor :=
  mkExtractor [] [] (frameRate x) (maxDuration x) true
              (currentVideo x) (currentCanvas x)
              (onProgress x) (onComplete x) (onError x).

(** Lines 139-141. *)
Definition store_references (x : extractor) : extractor :=
  mkExtractor (frames x) (previewFrames x) (frameRate x) (maxDuration x)
              (isProcessing x) true true
              (onProgress x) (onComplete x) (onError x).

(** The arithmetic of [onloadedmetadata], lines 63-72: the capped duration
    and the frame count, or the rejection. *)
Definition plan (rate cap videoDuration : num) : string + (num * num) :=
  let duration := nmin videoDuration cap in
  let totalFrames := nmin (nceil (Double.mul duration rate)) (Double.mul rate cap) in
  if nle totalFrames (Fin 0)
  then inl "Invalid video duration or frame count"%string
  else inr (duration, totalFrames).

(** [loadVideo], lines 56-100. *)
Definition loadVideo (x : extractor) (r : load_result) : string + (num * num) :=
  match r with
  | LoadFails => inl "Failed to load video"%string
  | Metadata videoDuration => plan (frameRate x) (maxDuration x) videoDuration
  end.

(** Line 149. *)
Definition frame_time (duration timeBetweenFrames : num) (i : nat) : num :=
  nmin (Double.mul (of_nat i) timeBetweenFrames)
       (Double.sub duration (Fin Double.tenth)).

(** Line 162: [!imageData.some(channel => channel !== 0)]. *)
Definition isEmpty (data : list Z) : bool :=
  negb (existsb (fun channel => negb (channel =? 0)%Z) data).

(** The [try] block of one iteration, lines 152-209.  The third component
    is [false] when the iteration never gets past [await seekVideo]. *)
Definition attempt (x : extractor) (fe : frame_env) (i : nat)
           (totalFrames t : num) : extractor * list event * bool :=
  let x1 := host (cleanup_during_seek fe) x in
  let seen := mark (cleanup_during_seek fe) in
  if negb (seeked fe) then (x1, seen, false)
  else
    match shot fe with
    | CaptureThrows => (x1, seen, true)
    | Pixels data enc =>
        if isEmpty data then (x1, seen, true)
        else
          match enc with
          | EncodeThrows => (x1, seen, true)
          | Encoded dataUrl blobData =>
              let x2 := push_preview (mkFrameData dataUrl t) x1 in
              let x3 := host (cleanup_during_blob fe) x2 in
              let x4 := match blobData with
                        | Some b => push_frame (mkFile i b) x3
                        | None => x3
                        end in
              let evs := if onProgress x4
                         then [Progress (S i) totalFrames (toFixed2 t)]
                         else [] in
              (host (cleanup_during_delay fe) x4,
               seen ++ mark (cleanup_during_blob fe) ++ evs
                    ++ mark (cleanup_during_delay fe),
               true)
          end
    end.

(** The [for] loop of lines 146-210, from index [i].  [None]: the fuel ran
    out before the loop condition failed.  The third component is [true]
    when the loop was left, [false] when an iteration stays suspended.
    The index is a natural number; the counter of the code is a double,
    which counts exactly up to 2^53. *)
Fixpoint loop (fuel : nat) (e : env) (duration totalFrames timeBetweenFrames : num)
         (i : nat) (x : extractor) : option (extractor * list event * bool) :=
  match fuel with
  | O => None
  | S fuel' =>
      if nlt (of_nat i) totalFrames then
        if negb (isProcessing x) then Some (x, [], true)
        else
          let t := frame_time duration timeBetweenFrames i in
          match attempt x (frame e i) i totalFrames t with
          | (x', evs, false) =>
              Some (x', Log (S i) totalFrames (toFixed2 t) :: evs, false)
          | (x', evs, true) =>
              match loop fuel' e duration totalFrames timeBetweenFrames (S i) x' with
              | Some (x'', evs', done) =>
                  Some (x'', Log (S i) totalFrames (toFixed2 t) :: evs ++ evs', done)
              | None => None
              end
          end
      else Some (x, [], true)
  end.

Record run : Type := mkRun {
  final : extractor;
  trace : list event;
  result : outcome
}.

(** [extractFrames], lines 125-228.  A run that stays suspended never
    reaches the code after the loop, nor the [finally] block. *)
Definition extractFrames (fuel : nat) (e : env) (x : extractor) : option run :=
  if isProcessing x
  then Some (mkRun x [] (Threw "Extraction already in progress"%string))
  else
    let x1 := host (cleanup_during_load e) (begin_run x) in
    match loadVideo x1 (load e) with
    | inl message =>
        Some (mkRun (cleanup x1)
                    (mark (cleanup_during_load e)
                     ++ (if onError x1 then [Error message] else []))
                    (Threw message))
    | inr (duration, totalFrames) =>
        let x2 := store_references x1 in
        let timeBetweenFrames := Double.div duration totalFrames in
        match loop fuel e duration totalFrames timeBetweenFrames 0 x2 with
        | None => None
        | Some (x3, evs, true) =>
            Some (mkRun (cleanup x3)
                        (mark (cleanup_during_load e) ++ evs
                         ++ (if onComplete x3
                             then [Complete (previewFrames x3)]
                             else []))
                        (Returned (previewFrames x3)))
        | Some (x3, evs, false) =>
            Some (mkRun x3 (mark (cleanup_during_load e) ++ evs) Suspended)
        end
    end.

(** ** The timestamp plan *)

(** The times the loop visits when nothing interrupts it. *)
Fixpoint times (fuel : nat) (duration totalFrames timeBetweenFrames : num)
         (i : nat) : option (list num) :=
  match fuel with
  | O => None
  | S fuel' =>
      if nlt (of_nat i) totalFrames then
        match times fuel' duration totalFrames timeBetweenFrames (S i) with
        | Some ts => Some (frame_time duration timeBetweenFrames i :: ts)
        | None => None
        end
      else Some []
  end.

Inductive planned : Type :=
| OutOfFuel
| Rejected (message : string)
| Planned (timestamps : list num).

Definition timestamps (fuel : nat) (videoDuration rate cap : num) : planned :=
  match plan rate cap videoDuration with
  | inl message => Rejected message
  | inr (duration, totalFrames) =>
      match times fuel duration totalFrames (Double.div duration totalFrames) 0 with
      | Some ts => Planned ts
      | None => OutOfFuel
      end
  end.

End SimpleExtractor.

(* ================================================================== *)
(** * The second extractor: a recursive frame sequence *)
(* ================================================================== *)

Module SequenceExtractor.

(** The fields of [this] that the run reads or writes.  [cancelled] is
    [this.currentExtraction.cancelled]; no code path ever installs
    [currentExtraction.reject], so [cancel()] only flips the two flags. *)
Record extractor : Type := mkExtractor {
  frames : list string;
  previewFrames : list string;
  frameRate : num;
  maxDuration : num;
  quality : num;
  isProcessing : bool;
  cancelled : bool;
  onProgress : bool;
  onComplete : bool;
  onError : bool
}.

(** The constructor, lines 362-392. *)
Definition constructor : extractor :=
  mkExtractor [] [] (Fin 2) (Fin 30) (Fin (7 # 10)) false false false false false.

(** The [options] argument; [None] is an absent ([undefined]) field. *)
Record options : Type := mkOptions {
  opt_frameRate : option num;
  opt_maxDuration : option num;
  opt_quality : option num
}.

(** [option || current]. *)
Definition or_else (o : option num) (current : num) : num :=
  match o with
  | Some v => if truthy v then v else current
  | None => current
  end.

(** An error object, by its message. *)
Inductive failure : Type :=
| Message (text : string)
| FailedToSeek (seekTime : num).   (* `Failed to seek to ${seekTime.toFixed(2)}s` *)

Inductive event : Type :=
| Progress (current : nat) (total : num) (t : num)
           (frame : string) (preview : option string)   (* lines 743-751 *)
| Complete (result : list string)                       (* lines 647-649 *)
| Error (error : failure).                              (* lines 657-659, 670-672 *)

Inductive outcome : Type :=
| Threw (message : string)      (* thrown before the promise is created *)
| Resolved (result : list string)
| Rejected (error : failure)
| Pending.                      (* the promise is never settled *)

(** ** The environment of a run

    The run is modelled for a video that reports an error or can play
    within the 5 s of line 692 (the timer of lines 687-692 is then cleared
    or finds nothing to do), and for a host whose only call while the run
    is active is [cancel()].  A media error after [canplay] is modelled
    where the code waits for it, during a seek. *)

(** The preview of lines 725-740: building it throws, [img.onload] never
    fires, or it yields a data URL. *)
Inductive preview_result : Type :=
| PreviewThrows (message : string)
| PreviewNeverLoads
| Preview (dataUrl : string).

(** [seekToTime], lines 886-970: the video is already within 0.01 s of the
    time; or the video emits [error] while the seek waits; or the seek ends
    with [seeked] or with the 2 s timeout. *)
Inductive seek_result : Type :=
| AtTarget
| SeekError (message : option string)
| Seeked.

(** Lines 843-870 of [extractFrame]: drawing or exporting throws (or the
    fallback capture rejects), or the canvas yields a data URL. *)
Inductive capture_result : Type :=
| CaptureFails (message : string)
| Captured (frameData : string) (p : preview_result).

Record frame_env : Type := mkFrameEnv {
  seekable : option (list Seekable.range);
  seek : seek_result;
  cancel_during_capture : bool;
  captured : capture_result;
  cancel_during_delay : bool
}.

Inductive load_result : Type :=
| VideoError (message : option string)
| CanPlay (videoDuration : num).

Record env : Type := mkEnv {
  load : load_result;
  cancel_during_load : bool;
  frame : nat -> frame_env
}.

(** [cancel()], lines 527-535. *)
Definition cancel (x : extractor) : extractor :=
  mkExtractor (frames x) (previewFrames x) (frameRate x) (maxDuration x)
              (quality x) false true (onProgress x) (onComplete x) (onError x).

Definition host (calls_cancel : bool) (x : extractor) : extractor :=
  if calls_cancel then cancel x else x.

Definition stop_processing (x : extractor) : extractor :=
  mkExtractor (frames x) (previewFrames x) (frameRate x) (maxDuration x)
              (quality x) false (cancelled x)
              (onProgress x) (onComplete x) (onError x).

Definition push_frame (f : string) (x : extractor) : extractor :=
  mkExtractor (frames x ++ [f]) (previewFrames x) (frameRate x) (maxDuration x)
              (quality x) (isProcessing x) (cancelled x)
              (onProgress x) (onComplete x) (onError x).

Definition push_preview (p : string) (x : extractor) : extractor :=
  mkExtractor (frames x) (previewFrames x ++ [p]) (frameRate x) (maxDuration x)
              (quality x) (isProcessing x) (cancelled x)
              (onProgress x) (onComplete x) (onError x).

(** Lines 587-595: the run is marked active and the options are applied. *)
Definition begin_run (o : options) (x : extractor) : extractor :=
  mkExtractor [] []
              (or_else (opt_frameRate o) (frameRate x))
              (or_else (opt_maxDuration o) (maxDuration x))
              (or_else (opt_quality o) (quality x))
              true false (onProgress x) (onComplete x) (onError x).

(** The message of the listener of lines 666-674. *)
Definition load_failure (message : option string) : failure :=
  Message ("Failed to load video: " ++
           match message with
           | Some m => if (m =? "")%string then "Unknown error" else m
           | None => "Unknown error"
           end)%string.

(** How a frame sequence ends: its promise resolves, it rejects, or it
    never settles. *)
Inductive ending : Type :=
| Finished
| Failed (error : failure)
| Stalled.

(** What a frame sequence leaves behind: the extractor, the callbacks it
    made, its ending, and the error with which the [error] listener of
    lines 666-678 has rejected the promise of [extractFrames] meanwhile, if
    it has fired. *)
Definition sequence_result : Type :=
  (extractor * list event * ending * option failure)%type.

(** [extractFrameSequence], lines 712-763, with [extractFrame] (lines
    827-878) and [seekToTime] (lines 886-970) inlined.  The [error]
    listener that [extractFrames] registered with [once] at line 678 is
    still in place after [canplay]: an [error] event of the video during a
    seek reaches it first, and then the listener of the seek. *)
Fixpoint extractFrameSequence (fuel : nat) (e : env)
         (startFrame : nat) (totalFrames frameInterval duration : num)
         (x : extractor) : option sequence_result :=
  match fuel with
  | O => None
  | S fuel' =>
      if nge (of_nat startFrame) totalFrames then Some (x, [], Finished, None)
      else
        let targetTime :=
          nmin (Double.mul (of_nat startFrame) frameInterval) duration in
        let fe := frame e startFrame in
        let seekTime := Seekable.getNearestSeekableTime (seekable fe) targetTime in
        let x1 := host (cancel_during_capture fe) x in
        let capture :=
          match captured fe with
          | CaptureFails message => Some (x1, [], Failed (Message message), None)
          | Captured frameData p =>
              let x2 := push_frame frameData x1 in
              match p with
              | PreviewThrows message =>
                  Some (x2, [], Failed (Message message), None)
              | PreviewNeverLoads => Some (x2, [], Stalled, None)
              | Preview dataUrl =>
                  let x3 := push_preview dataUrl x2 in
                  let evs :=
                    if onProgress x3
                    then [Progress (S startFrame) totalFrames targetTime frameData
                                   (nth_error (previewFrames x3) startFrame)]
                    else [] in
                  if negb (cancelled x3)
                     && nlt (of_nat startFrame) (Double.sub totalFrames (Fin 1))
                  then
                    let x4 := host (cancel_during_delay fe) x3 in
                    match extractFrameSequence fuel' e (S startFrame)
                            totalFrames frameInterval duration x4 with
                    | Some (x5, evs', r, early) => Some (x5, evs ++ evs', r, early)
                    | None => None
                    end
                  else Some (x3, evs, Finished, None)
              end
          end in
        match seek fe with
        | AtTarget => capture
        | Seeked =>
            if cancelled x
            then Some (x, [], Failed (Message "Frame extraction cancelled"), None)
            else capture
        | SeekError message =>
            if cancelled x
            then Some (x, [], Failed (Message "Frame extraction cancelled"), None)
            else
              Some (stop_processing x1,
                    if onError x1 then [Error (load_failure message)] else [],
                    Failed (FailedToSeek seekTime),
                    Some (load_failure message))
        end
  end.

Record run : Type := mkRun {
  final : extractor;
  trace : list event;
  result : outcome
}.

(** The first settlement of a promise is the one that counts. *)
Definition settle (early : option failure) (late : outcome) : outcome :=
  match early with
  | Some error => Rejected error
  | None => late
  end.

(** [extractFrames], lines 582-702. *)
Definition extractFrames (fuel : nat) (e : env) (o : options) (x : extractor)
  : option run :=
  if isProcessing x
  then Some (mkRun x [] (Threw "Extraction already in progress"%string))
  else
    let x1 := host (cancel_during_load e) (begin_run o x) in
    match load e with
    | VideoError message =>
        Some (mkRun (stop_processing x1)
                    (if onError x1 then [Error (load_failure message)] else [])
                    (Rejected (load_failure message)))
    | CanPlay videoDuration =>
        let duration := nmin videoDuration (maxDuration x1) in
        let frameInterval := Double.div (Fin 1) (frameRate x1) in
        let totalFrames := nceil (Double.mul duration (frameRate x1)) in
        match extractFrameSequence fuel e 0 totalFrames frameInterval duration x1 with
        | None => None
        | Some (x3, evs, Finished, early) =>
            if negb (cancelled x3)
            then Some (mkRun (stop_processing x3)
                             (evs ++ (if onComplete x3
                                      then [Complete (frames x3)] else []))
                             (settle early (Resolved (frames x3))))
            else Some (mkRun x3 evs (settle early Pending))
        | Some (x3, evs, Failed error, early) =>
            if negb (cancelled x3)
            then Some (mkRun (stop_processing x3)
                             (evs ++ (if onError x3 then [Error error] else []))
                             (settle early (Rejected error)))
            else Some (mkRun (stop_processing x3) evs (settle early Pending))
        | Some (x3, evs, Stalled, early) =>
            Some (mkRun x3 evs (settle early Pending))
        end
    end.

End SequenceExtractor.

(* ================================================================== *)
(** * The batch sampler of the server *)
(* ================================================================== *)

Module Server.

(** An element of [framePaths], lines 726-730; [path] is the number in
    [frame-<index + 1>.jpg]. *)
Record frame : Type := mkFrame {
  path : nat;
  time : num;
  size : Z
}.

(** One ffmpeg invocation and the [stat] that follows it, lines 715-738. *)
Inductive invocation : Type :=
| ExecFails
| StatFails
| Artifact (bytes : Z).

Inductive cause : Type :=
| InvalidVideoDuration (duration : option num)   (* line 697 *)
| NoValidFrames.                                 (* line 742 *)

(** The error rethrown at line 758: "Failed to extract frames: <cause>". *)
Inductive error : Type := FailedToExtractFrames (c : cause).

(** Line 696, negated; [None] is the [null] of [getVideoDuration]. *)
Definition valid_duration (duration : option num) : bool :=
  match duration with
  | None => false
  | Some d => truthy d && negb (isNaN d) && negb (nle d (Fin 0))
  end.

(** Lines 703-709. *)
Definition timestamps (duration : num) (frameCount : nat) : list num :=
  let interval := Double.div duration (of_nat (frameCount + 1)) in
  map (fun i => nmin (nfloor (Double.mul interval (of_nat i)))
                     (Double.sub duration (Fin Double.tenth)))
      (seq 1 frameCount).

(** What one settled invocation adds to [framePaths], lines 712-739. *)
Definition settled (ts : list num) (inv : nat -> invocation) (index : nat)
  : list frame :=
  match nth_error ts index with
  | None => []
  | Some timestamp =>
      match inv index with
      | Artifact bytes =>
          if (0 <? bytes)%Z then [mkFrame (index + 1) timestamp bytes] else []
      | ExecFails | StatFails => []
      end
  end.

(** [extractVideoFrames], lines 679-760, for a probed [duration].  The
    invocations run concurrently; [order] lists their indices in the order
    in which they settle.  Creating the scratch directory is assumed to
    succeed. *)
Definition extractVideoFrames (duration : option num) (frameCount : nat)
           (inv : nat -> invocation) (order : list nat) : list frame + error :=
  match duration with
  | Some d =>
      if valid_duration duration then
        let framePaths := flat_map (settled (timestamps d frameCount) inv) order in
        if (List.length framePaths =? 0)%nat
        then inr (FailedToExtractFrames NoValidFrames)
        else inl framePaths
      else inr (FailedToExtractFrames (InvalidVideoDuration duration))
  | None => inr (FailedToExtractFrames (InvalidVideoDuration duration))
  end.

End Server.

(* ================================================================== *)
(** * The planner and the plan as the specification words them *)
(* ================================================================== *)

Module Spec.

(** The formulas of the specification, evaluated as JavaScript evaluates
    them: every product, quotient and difference is rounded to a double. *)

(** [effectiveDuration = min(duration, maxDuration)]. *)
Definition effectiveDuration (duration maxDuration : Q) : Q :=
  Qmin duration maxDuration.

(** [totalFrames = ceil(effectiveDuration * rate)]. *)
Definition totalFrames (duration rate maxDuration : Q) : Z :=
  Qceiling (Double.round (effectiveDuration duration maxDuration * rate)).

(** [timestamps[i] = min(i * (effectiveDuration/totalFrames),
    effectiveDuration - 0.1)] for [i] in [[0, totalFrames)]. *)
Definition timestamps (duration rate maxDuration : Q) : list num :=
  let eff := effectiveDuration duration maxDuration in
  let total := totalFrames duration rate maxDuration in
  map (fun i => nmin (Double.mul (of_nat i)
                                 (Double.div (Fin eff) (Fin (inject_Z total))))
                     (Double.sub (Fin eff) (Fin Double.tenth)))
      (seq 0 (Z.to_nat total)).



(** Two plans hold the same numbers. *)
Definition same_plan (ts us : list num) : Prop := Forall2 num_eq ts us.


End Spec.

(* ================================================================== *)
(** * Runs of the first extractor that nothing interrupts *)
(* ================================================================== *)

Module SimpleRun.

Import SimpleExtractor.

(** The host never calls [cleanup()] while the run is suspended, and every
    seek completes. *)
Definition uninterrupted (e : env) : Prop :=
  cleanup_during_load e = false
  /\ forall k, seeked (frame e k) = true
               /\ cleanup_during_seek (frame e k) = false
               /\ cleanup_during_blob (frame e k) = false
               /\ cleanup_during_delay (frame e k) = false.

(** The capture passes the emptiness test and the encode step. *)
Definition usable (c : capture) : bool :=
  match c with
  | Pixels data (Encoded _ _) => negb (isEmpty data)
  | Pixels _ EncodeThrows | CaptureThrows => false
  end.

(** What iteration [k] pushes on [previewFrames] and on [frames]. *)
Definition previews_of (e : env) (duration step : num) (k : nat) : list FrameData :=
  match shot (frame e k) with
  | Pixels data (Encoded dataUrl _) =>
      if isEmpty data then [] else [mkFrameData dataUrl (frame_time duration step k)]
  | Pixels _ EncodeThrows | CaptureThrows => []
  end.

Definition files_of (e : env) (k : nat) : list File :=
  match shot (frame e k) with
  | Pixels data (Encoded _ (Some b)) => if isEmpty data then [] else [mkFile k b]
  | Pixels _ (Encoded _ None) | Pixels _ EncodeThrows | CaptureThrows => []
  end.

(** The events of iteration [k]: the log line, then the progress event of a
    usable frame when a progress callback is installed. *)
Definition events_of (e : env) (callback : bool) (duration total step : num)
           (k : nat) : list event :=
  Log (S k) total (toFixed2 (frame_time duration step k))
  :: (if usable (shot (frame e k)) && callback
      then [Progress (S k) total (toFixed2 (frame_time duration step k))]
      else []).

Definition is_progress (ev : event) : bool :=
  match ev with Progress _ _ _ => true | _ => false end.



End SimpleRun.

(* ================================================================== *)
(** * Scaled dimensions *)
(* ================================================================== *)

Module Dimensions.

Record size : Type := mkSize {
  width : num;
  height : num
}.

(** [calculateScaledDimensions], lines 544-553. *)
Definition calculateScaledDimensions (width height maxWidth : num) : size :=
  let aspectRatio := Double.div width height in
  if nlt maxWidth width
  then mkSize maxWidth (nround (Double.div maxWidth aspectRatio))
  else mkSize width height.

(** [calculateAspectRatio], lines 562-572.  A missing argument is falsy
    like [NaN]. *)
Definition calculateAspectRatio (width height maxWidth : num) : size :=
  if negb (truthy width) || negb (truthy height)
  then mkSize maxWidth
              (nround (Double.div (Double.mul maxWidth (Fin 9)) (Fin 16)))
  else
    let aspectRatio := Double.div width height in
    let newWidth := nmin width maxWidth in
    let newHeight := nround (Double.div newWidth aspectRatio) in
    mkSize newWidth newHeight.

End Dimensions.

(* ================================================================== *)
(** * The loading overlay *)
(* ================================================================== *)

Module LoadingOverlay.

(** A value stored in [onCancel]: [null], a function, or some other truthy
    value. *)
Inductive value : Type :=
| Null
| Function (id : nat)
| Other.

Definition truthy_value (v : value) : bool :=
  match v with Null => false | Function _ | Other => true end.

(** The overlay and the parts of the page it writes.  The elements that the
    methods use without a guard (overlay, title, message, cancel button)
    are taken to exist; [progress], [progressText] and [status] are [None]
    when the page has no such element. *)
Record overlay : Type := mkOverlay {
  title : string;                 (* title.textContent *)
  message : string;               (* message.textContent *)
  progress : option num;          (* progress.style.width in %, aria-valuenow *)
  progressText : option num;      (* progressText.textContent, in % *)
  status : option string;         (* status.textContent *)
  hiddenClass : bool;             (* overlay.classList has 'hidden' *)
  cancelShown : bool;             (* cancelButton.style.display is 'block' *)
  onCancel : value;
  isVisible : bool;
  bodyOverflow : string           (* document.body.style.overflow *)
}.

(** Lines 318. *)
Definition clamp (percent : num) : num :=
  nmax (Fin 0) (nmin (Fin 100) (nround percent)).

(** [updateProgress], lines 317-332. *)
Definition updateProgress (percent : num) (text : string) (o : overlay) : overlay :=
  let clampedPercent := clamp percent in
  mkOverlay (title o) (message o)
            (match progress o with Some _ => Some clampedPercent | None => None end)
            (match progressText o with Some _ => Some clampedPercent | None => None end)
            (match status o with
             | Some old => if (text =? "")%string then Some old else Some text
             | None => None
             end)
            (hiddenClass o) (cancelShown o) (onCancel o) (isVisible o)
            (bodyOverflow o).

(** [updateMessage], lines 338-342. *)
Definition updateMessage (text : string) (o : overlay) : overlay :=
  mkOverlay (title o) text (progress o) (progressText o) (status o)
            (hiddenClass o) (cancelShown o) (onCancel o) (isVisible o)
            (bodyOverflow o).

(** [show], lines 282-297. *)
Definition show (newTitle newMessage : string) (callback : value) (o : overlay)
  : overlay :=
  if isVisible o then o
  else
    let shown :=
      mkOverlay newTitle newMessage (progress o) (progressText o) (status o)
                false (truthy_value callback) callback true (bodyOverflow o) in
    let reset := updateProgress (Fin 0) "Starting..." shown in
    mkOverlay (title reset) (message reset) (progress reset) (progressText reset)
              (status reset) (hiddenClass reset) (cancelShown reset)
              (onCancel reset) (isVisible reset) "hidden".

(** [hide], lines 302-310. *)
Definition hide (o : overlay) : overlay :=
  if isVisible o
  then mkOverlay (title o) (message o) (progress o) (progressText o) (status o)
                 true (cancelShown o) (onCancel o) false ""
  else o.

(** [handleCancel], lines 347-352: the overlay afterwards, and the callback
    that was called, if any. *)
Definition handleCancel (o : overlay) : overlay * option nat :=
  (hide o, match onCancel o with Function id => Some id | Null | Other => None end).

(** The progress handler that [processVideoFile] installs on the extractor
    ([main.js], lines 983-988): the percentage it passes to
    [updateProgress]. *)
Definition extraction_percent (current total : num) : num :=
  let percent := nround (Double.mul (Double.div current total) (Fin 100)) in
  Double.mul percent (Fin (Double.round (6 # 10))).

End LoadingOverlay.

(* ================================================================== *)
(** * Time stamps for display *)
(* ================================================================== *)

Module TimeFormat.




End TimeFormat.

(* ================================================================== *)
(** * Probing the duration on the server *)
(* ================================================================== *)

Module Probe.

(** The fast [ffprobe] call of lines 766-777: it fails, or its output is
    parsed by [parseFloat] (to [NaN] when it is no number). *)
Inductive fast_probe : Type :=
| FastFails
| FastStdout (parsed : num).

(** The fallback call of lines 780-790: it fails, or its output has no
    [duration=] field, or [parseFloat] of the field. *)
Inductive fallback_probe : Type :=
| FallbackFails
| FallbackStdout (field : option num).

(** [getVideoDuration], lines 763-799; [None] is [null]. *)
Definition getVideoDuration (fast : fast_probe) (fallback : fallback_probe)
  : option num :=
  let second :=
    match fallback with
    | FallbackFails => None
    | FallbackStdout field => field
    end in
  match fast with
  | FastStdout duration =>
      if negb (isNaN duration) && nlt (Fin 0) duration
      then Some duration
      else second
  | FastFails => second
  end.

End Probe.

(* ================================================================== *)
(** * The life cycle of the second extractor *)
(* ================================================================== *)

Module SequenceLifecycle.

(** The second extractor with the resources it holds: [true] when the field
    is not [null]. *)
Record instance : Type := mkInstance {
  core : SequenceExtractor.extractor;
  video : bool;
  canvas : bool;
  ctx : bool;
  videoUrl : bool
}.

Definition clear_frames (x : SequenceExtractor.extractor)
  : SequenceExtractor.extractor :=
  SequenceExtractor.mkExtractor [] []
    (SequenceExtractor.frameRate x) (SequenceExtractor.maxDuration x)
    (SequenceExtractor.quality x) (SequenceExtractor.isProcessing x)
    (SequenceExtractor.cancelled x) (SequenceExtractor.onProgress x)
    (SequenceExtractor.onComplete x) (SequenceExtractor.onError x).

(** Lines 489-494: a fresh [currentExtraction]. *)
Definition fresh_extraction (x : SequenceExtractor.extractor)
  : SequenceExtractor.extractor :=
  SequenceExtractor.mkExtractor
    (SequenceExtractor.frames x) (SequenceExtractor.previewFrames x)
    (SequenceExtractor.frameRate x) (SequenceExtractor.maxDuration x)
    (SequenceExtractor.quality x) (SequenceExtractor.isProcessing x)
    false (SequenceExtractor.onProgress x)
    (SequenceExtractor.onComplete x) (SequenceExtractor.onError x).

(** [cleanup()], lines 397-471; releasing the elements is taken not to
    throw. *)
Definition cleanup (i : instance) : instance :=
  mkInstance
    (clear_frames
       (SequenceExtractor.stop_processing (SequenceExtractor.cancel (core i))))
    false
    false
    (if canvas i then false else ctx i)
    false.

(** [reset()], lines 476-522; creating the new elements is taken not to
    throw. *)
Definition reset (i : instance) : instance :=
  let cancelled := SequenceExtractor.cancel (core i) in
  let cleared :=
    fresh_extraction (SequenceExtractor.stop_processing (clear_frames cancelled)) in
  let cleaned := cleanup (mkInstance cleared (video i) (canvas i) (ctx i) (videoUrl i)) in
  mkInstance (core cleaned) true true true (videoUrl cleaned).

(** The synchronous start of [extractFrames], lines 583-621 and 676-700:
    the guard, the options, and the elements the promise sets up.  [inr] is
    the error thrown. *)
Definition start (o : SequenceExtractor.options) (i : instance)
  : instance + string :=
  if SequenceExtractor.isProcessing (core i)
  then inr "Extraction already in progress"%string
  else inl (mkInstance (SequenceExtractor.begin_run o (core i))
                       true true (if canvas i then ctx i else true) true).

End SequenceLifecycle.

(* ================================================================== *)
(** * Reading the traces *)
(* ================================================================== *)

Module Traces.

(** The [current] of the progress events of the first extractor. *)
Definition simple_current (ev : SimpleExtractor.event) : list nat :=
  match ev with SimpleExtractor.Progress c _ _ => [c] | _ => [] end.

End Traces.

Module SimpleTraces.

Import SimpleExtractor.

Definition is_log (ev : event) : bool :=
  match ev with Log _ _ _ => true | _ => false end.

Definition is_cleanup (ev : event) : bool :=
  match ev with Cleanup => true | _ => false end.

(** What a run does after the host's first call of [cleanup()]. *)
Fixpoint after_cleanup (evs : list event) : list event :=
  match evs with
  | [] => []
  | Cleanup :: rest => rest
  | _ :: rest => after_cleanup rest
  end.

End SimpleTraces.

(* ================================================================== *)
(** * Rounding to the nearest double *)
(* ================================================================== *)

Section Doubles.

Import Double.

Lemma pow2_pos (e : Z) : 0 < pow2 e.
Proof. apply Qpower_0_lt. reflexivity. Qed.

Lemma pow2_add (a b : Z) : pow2 (a + b) == pow2 a * pow2 b.
Proof. apply Qpower_plus. discriminate. Qed.

Lemma pow2_le (a b : Z) : (a <= b)%Z -> pow2 a <= pow2 b.
Proof. intro H. apply Qpower_le_compat_l; [exact H | discriminate]. Qed.

Lemma pow2_lt_inv (a b : Z) : pow2 a < pow2 b -> (a < b)%Z.
Proof. intro H. apply (Qpower_lt_compat_l_inv 2); [exact H | reflexivity]. Qed.

Lemma pow2_nat (a : Z) : (0 <= a)%Z -> pow2 a == inject_Z (2 ^ a).
Proof. intro H. unfold pow2. now rewrite Zpower_Qpower. Qed.

Lemma pow2_opp (a : Z) : pow2 (- a) == / pow2 a.
Proof. apply Qpower_opp. Qed.

Lemma pow2_div (x : Q) (a b : Z) : x * pow2 a / pow2 b == x * pow2 (a - b).
Proof.
  replace (a - b)%Z with (a + - b)%Z by lia.
  rewrite pow2_add, pow2_opp. unfold Qdiv. now rewrite Qmult_assoc.
Qed.

Lemma scaled_pos (x : Q) (e : Z) : 0 < x -> 0 < x / pow2 e.
Proof.
  intro H. apply Qlt_shift_div_l; [apply pow2_pos | now rewrite Qmult_0_l].
Qed.

Lemma scaled_le (x y : Q) (e : Z) : x <= y -> x / pow2 e <= y / pow2 e.
Proof.
  intro H. apply Qmult_le_compat_r; [exact H|].
  apply Qlt_le_weak, Qinv_lt_0_compat, pow2_pos.
Qed.

Lemma scaled_back (x : Q) (e : Z) : x / pow2 e * pow2 e == x.
Proof.
  field. intro E. pose proof (pow2_pos e) as H. rewrite E in H.
  now apply Qlt_irrefl in H.
Qed.

Lemma positive_num (x : Q) : 0 < x <-> (0 < Qnum x)%Z.
Proof. unfold Qlt. cbn. lia. Qed.

Lemma frac_lt (n A B : Z) (d : positive) :
  (0 < B)%Z -> (n * B < A * Z.pos d)%Z -> n # d < inject_Z A / inject_Z B.
Proof.
  intros HB H. apply Qlt_shift_div_l.
  - change 0 with (inject_Z 0). now rewrite <- Zlt_Qlt.
  - unfold Qlt, Qmult, inject_Z; cbn. lia.
Qed.

Lemma frac_le (n A B : Z) (d : positive) :
  (0 < B)%Z -> (A * Z.pos d <= n * B)%Z -> inject_Z A / inject_Z B <= n # d.
Proof.
  intros HB H. apply Qle_shift_div_r.
  - change 0 with (inject_Z 0). now rewrite <- Zlt_Qlt.
  - unfold Qle, Qmult, inject_Z; cbn. lia.
Qed.

(** [ilog2 x] is the exponent of the leading bit of [x]. *)
Lemma ilog2_spec (x : Q) :
  0 < x -> pow2 (ilog2 x) <= x /\ x < pow2 (ilog2 x + 1).
Proof.
  intro Hx. apply positive_num in Hx.
  destruct x as [n d]. cbn [Qnum] in Hx. unfold ilog2. cbn [Qnum Qden].
  assert (Ha : (0 <= Z.log2 n)%Z) by apply Z.log2_nonneg.
  assert (Hb : (0 <= Z.log2 (Z.pos d))%Z) by apply Z.log2_nonneg.
  destruct (Z.log2_spec n Hx) as [A1 A2].
  destruct (Z.log2_spec (Z.pos d) ltac:(lia)) as [B1 B2].
  set (a := Z.log2 n) in *. set (b := Z.log2 (Z.pos d)) in *.
  clearbody a b.
  assert (Pa : (0 < 2 ^ a)%Z) by (apply Z.pow_pos_nonneg; lia).
  assert (Pb : (0 < 2 ^ b)%Z) by (apply Z.pow_pos_nonneg; lia).
  replace (Z.succ a) with (a + 1)%Z in A2 by lia.
  replace (Z.succ b) with (b + 1)%Z in B2 by lia.
  rewrite Z.pow_add_r in A2, B2 by lia. change (2 ^ 1)%Z with 2%Z in A2, B2.
  assert (E : forall c : Z, (0 <= c)%Z ->
             pow2 (a - (b + c)) == inject_Z (2 ^ a) / inject_Z (2 ^ b * 2 ^ c)).
  { intros c Hc. replace (a - (b + c))%Z with (a + - (b + c))%Z by lia.
    rewrite pow2_add, pow2_opp, pow2_add.
    rewrite (pow2_nat a Ha), (pow2_nat b Hb), (pow2_nat c Hc), inject_Z_mult.
    reflexivity. }
  assert (F : forall c : Z, (0 <= c)%Z ->
             pow2 (a + c - b) == inject_Z (2 ^ a * 2 ^ c) / inject_Z (2 ^ b)).
  { intros c Hc. replace (a + c - b)%Z with (a + c + - b)%Z by lia.
    rewrite pow2_add, pow2_opp, pow2_add.
    rewrite (pow2_nat a Ha), (pow2_nat b Hb), (pow2_nat c Hc), inject_Z_mult.
    reflexivity. }
  assert (Up : n # d < pow2 (a - b + 1)).
  { replace (a - b + 1)%Z with (a + 1 - b)%Z by lia. rewrite (F 1%Z) by lia.
    apply frac_lt; [exact Pb|]. change (2 ^ 1)%Z with 2%Z. nia. }
  assert (Lo : pow2 (a - b - 1) <= n # d).
  { replace (a - b - 1)%Z with (a - (b + 1))%Z by lia. rewrite (E 1%Z) by lia.
    apply frac_le; [lia|]. change (2 ^ 1)%Z with 2%Z. nia. }
  destruct (Qle_bool (pow2 (a - b)) (n # d)) eqn:C.
  - apply Qle_bool_iff in C. split; assumption.
  - assert (C' : n # d < pow2 (a - b)).
    { apply Qnot_le_lt. intro H. apply Qle_bool_iff in H. congruence. }
    replace (a - b - 1 + 1)%Z with (a - b)%Z by lia.
    split; [exact Lo | exact C'].
Qed.

Lemma ilog2_unique (x : Q) (k : Z) :
  pow2 k <= x -> x < pow2 (k + 1) -> ilog2 x = k.
Proof.
  intros H1 H2.
  assert (Hx : 0 < x) by (eapply Qlt_le_trans; [apply pow2_pos | exact H1]).
  destruct (ilog2_spec x Hx) as [S1 S2].
  assert (A : (k < ilog2 x + 1)%Z)
    by (apply pow2_lt_inv; eapply Qle_lt_trans; eassumption).
  assert (B : (ilog2 x < k + 1)%Z)
    by (apply pow2_lt_inv; eapply Qle_lt_trans; eassumption).
  lia.
Qed.

Lemma ilog2_mono (x y : Q) : 0 < x -> x <= y -> (ilog2 x <= ilog2 y)%Z.
Proof.
  intros Hx Hxy.
  assert (Hy : 0 < y) by (eapply Qlt_le_trans; eassumption).
  destruct (ilog2_spec x Hx) as [S1 _]. destruct (ilog2_spec y Hy) as [_ S2].
  assert (A : (ilog2 x < ilog2 y + 1)%Z).
  { apply pow2_lt_inv. eapply Qle_lt_trans; [exact S1|].
    eapply Qle_lt_trans; eassumption. }
  lia.
Qed.

Lemma exponent_mono (x y : Q) : 0 < x -> x <= y -> (exponent x <= exponent y)%Z.
Proof.
  intros Hx Hxy. unfold exponent. pose proof (ilog2_mono x y Hx Hxy). lia.
Qed.

(** ** The nearest integer *)

Lemma rne_cases (x : Q) :
  (rne x = Qfloor x /\ x - inject_Z (Qfloor x) <= 1 # 2)
  \/ (rne x = (Qfloor x + 1)%Z /\ 1 # 2 <= x - inject_Z (Qfloor x)).
Proof.
  unfold rne.
  destruct (Qcompare_spec (x - inject_Z (Qfloor x)) (1 # 2)) as [C | C | C].
  - destruct (Z.even (Qfloor x)); [left | right]; (split; [reflexivity|]);
      rewrite C; apply Qle_refl.
  - left. split; [reflexivity | now apply Qlt_le_weak].
  - right. split; [reflexivity | now apply Qlt_le_weak].
Qed.

Lemma rne_integer (z : Z) : rne (inject_Z z) = z.
Proof.
  unfold rne. rewrite Qfloor_Z.
  replace (Qcompare (inject_Z z - inject_Z z) (1 # 2)) with Lt; [reflexivity|].
  symmetry. apply Qlt_alt. setoid_replace (inject_Z z - inject_Z z) with 0 by ring.
  reflexivity.
Qed.

Lemma rne_mono (x y : Q) : x <= y -> (rne x <= rne y)%Z.
Proof.
  intro H. pose proof (Qfloor_resp_le x y H) as F.
  destruct (Z.eq_dec (Qfloor x) (Qfloor y)) as [E | N].
  - unfold rne. rewrite <- E.
    destruct (Qcompare_spec (x - inject_Z (Qfloor x)) (1 # 2)) as [Cx | Cx | Cx];
      destruct (Qcompare_spec (y - inject_Z (Qfloor x)) (1 # 2)) as [Cy | Cy | Cy];
      try (destruct (Z.even (Qfloor x))); try lia; exfalso; lra.
  - destruct (rne_cases x) as [[-> _] | [-> _]],
             (rne_cases y) as [[-> _] | [-> _]]; lia.
Qed.

Lemma rne_comp (x y : Q) : x == y -> rne x = rne y.
Proof.
  intro H. apply Z.le_antisymm; apply rne_mono; rewrite H; apply Qle_refl.
Qed.

Lemma rne_ge (x : Q) (z : Z) : inject_Z z <= x -> (z <= rne x)%Z.
Proof. intro H. rewrite <- (rne_integer z). now apply rne_mono. Qed.

Lemma rne_le (x : Q) (z : Z) : x <= inject_Z z -> (rne x <= z)%Z.
Proof. intro H. rewrite <- (rne_integer z). now apply rne_mono. Qed.

(** ** Rounding a positive number *)

Lemma round_pos_value (x : Q) :
  round_pos x == inject_Z (rne (x / pow2 (exponent x))) * pow2 (exponent x).
Proof. unfold round_pos. apply Qred_correct. Qed.

Lemma round_pos_nonneg (x : Q) : 0 < x -> 0 <= round_pos x.
Proof.
  intro Hx. rewrite round_pos_value. apply Qmult_le_0_compat.
  - change 0 with (inject_Z 0). rewrite <- Zle_Qle. apply rne_ge.
    apply Qlt_le_weak, scaled_pos, Hx.
  - apply Qlt_le_weak, pow2_pos.
Qed.

Lemma round_pos_mono (x y : Q) : 0 < x -> x <= y -> round_pos x <= round_pos y.
Proof.
  intros Hx Hxy.
  assert (Hy : 0 < y) by (eapply Qlt_le_trans; eassumption).
  pose proof (exponent_mono x y Hx Hxy) as He.
  rewrite !round_pos_value.
  destruct (Z.eq_dec (exponent x) (exponent y)) as [E | N].
  - rewrite E. apply Qmult_le_compat_r; [|apply Qlt_le_weak, pow2_pos].
    rewrite <- Zle_Qle. apply rne_mono. now apply scaled_le.
  - assert (Ey : exponent y = (ilog2 y - 52)%Z) by (unfold exponent in *; lia).
    assert (Ex : (ilog2 x - 52 <= exponent x)%Z) by (unfold exponent; lia).
    destruct (ilog2_spec x Hx) as [_ X]. destruct (ilog2_spec y Hy) as [Y _].
    apply Qle_trans with (pow2 (exponent x + 53)).
    + rewrite pow2_add, (Qmult_comm (pow2 (exponent x))).
      apply Qmult_le_compat_r; [|apply Qlt_le_weak, pow2_pos].
      rewrite (pow2_nat 53) by lia. rewrite <- Zle_Qle. apply rne_le.
      rewrite <- (pow2_nat 53) by lia.
      apply Qle_shift_div_r; [apply pow2_pos|]. rewrite <- pow2_add.
      apply Qlt_le_weak. eapply Qlt_le_trans; [exact X|]. apply pow2_le. lia.
    + apply Qle_trans with (pow2 (exponent y + 52)); [apply pow2_le; lia|].
      rewrite pow2_add, (Qmult_comm (pow2 (exponent y))).
      apply Qmult_le_compat_r; [|apply Qlt_le_weak, pow2_pos].
      rewrite (pow2_nat 52) by lia. rewrite <- Zle_Qle. apply rne_ge.
      rewrite <- (pow2_nat 52) by lia.
      apply Qle_shift_div_l; [apply pow2_pos|]. rewrite <- pow2_add.
      eapply Qle_trans; [|exact Y]. apply pow2_le. lia.
Qed.

(** ** Rounding any number *)

Lemma double_zero (x : Q) : x == 0 -> round x = 0.
Proof.
  intro H. unfold round. destruct x as [n d]. unfold Qeq in H; cbn in H.
  replace n with 0%Z by lia. reflexivity.
Qed.

Lemma double_positive (x : Q) : 0 < x -> round x = round_pos x.
Proof.
  intro H. apply positive_num in H. unfold round.
  destruct (Qnum x); try lia. reflexivity.
Qed.

Lemma double_negative (x : Q) : x < 0 -> round x = - round_pos (- x).
Proof.
  intro H. unfold round. destruct x as [n d]. unfold Qlt in H; cbn in H.
  destruct n; try lia. reflexivity.
Qed.

Lemma double_nonneg (x : Q) : 0 <= x -> 0 <= round x.
Proof.
  intro H. destruct (Qlt_le_dec 0 x) as [P | N].
  - rewrite double_positive by exact P. now apply round_pos_nonneg.
  - rewrite double_zero; [apply Qle_refl | now apply Qle_antisym].
Qed.

Lemma double_nonpos (x : Q) : x <= 0 -> round x <= 0.
Proof.
  intro H. destruct (Qlt_le_dec x 0) as [N | P].
  - rewrite double_negative by exact N.
    assert (0 <= round_pos (- x)) by (apply round_pos_nonneg; lra). lra.
  - rewrite double_zero; [apply Qle_refl | now apply Qle_antisym].
Qed.

(** Rounding never reverses the order of two numbers. *)
Lemma double_mono (x y : Q) : x <= y -> round x <= round y.
Proof.
  intro H. destruct (Qlt_le_dec 0 x) as [Px | Nx].
  - assert (Py : 0 < y) by exact (Qlt_le_trans _ _ _ Px H).
    rewrite !double_positive by assumption. now apply round_pos_mono.
  - destruct (Qlt_le_dec 0 y) as [Py | Ny].
    + apply Qle_trans with 0; [now apply double_nonpos | apply double_nonneg; lra].
    + destruct (Qlt_le_dec y 0) as [Ly | Zy].
      * assert (Lx : x < 0) by exact (Qle_lt_trans _ _ _ H Ly).
        rewrite !double_negative by assumption.
        assert (round_pos (- y) <= round_pos (- x))
          by (apply round_pos_mono; lra).
        lra.
      * rewrite (double_zero y) by (now apply Qle_antisym).
        now apply double_nonpos.
Qed.

Lemma double_comp (x y : Q) : x == y -> round x == round y.
Proof.
  intro H. apply Qle_antisym; apply double_mono; rewrite H; apply Qle_refl.
Qed.

(** A double is rounded to itself. *)
Lemma round_pos_representable (x : Q) (m e : Z) :
  x == inject_Z m * pow2 e -> (0 < m < 2 ^ 53)%Z -> (-1074 <= e)%Z ->
  round_pos x == x.
Proof.
  intros Hx Hm He.
  assert (Pm : 0 < inject_Z m)
    by (change 0 with (inject_Z 0); rewrite <- Zlt_Qlt; lia).
  assert (Px : 0 < x)
    by (rewrite Hx; apply Qmult_lt_0_compat; [exact Pm | apply pow2_pos]).
  destruct (ilog2_spec x Px) as [L _].
  assert (U : x < pow2 (53 + e)).
  { rewrite Hx, pow2_add. apply Qmult_lt_compat_r; [apply pow2_pos|].
    rewrite (pow2_nat 53) by lia. rewrite <- Zlt_Qlt. lia. }
  assert (I : (ilog2 x < 53 + e)%Z)
    by (apply pow2_lt_inv; eapply Qle_lt_trans; eassumption).
  assert (E : (exponent x <= e)%Z) by (unfold exponent; lia).
  rewrite round_pos_value. set (k := exponent x) in *. clearbody k.
  assert (S : x / pow2 k == inject_Z (m * 2 ^ (e - k))).
  { rewrite Hx, pow2_div, inject_Z_mult, <- pow2_nat by lia. reflexivity. }
  rewrite (rne_comp _ _ S), rne_integer, <- S. apply scaled_back.
Qed.

Lemma double_representable (x : Q) : representable x -> round x == x.
Proof.
  intros [m [e [Hx [Hm He]]]].
  destruct (Z.lt_trichotomy m 0) as [N | [Z | P]].
  - assert (Lx : x < 0).
    { rewrite Hx. setoid_replace 0 with (0 * pow2 e) by ring.
      apply Qmult_lt_compat_r; [apply pow2_pos|].
      change 0 with (inject_Z 0). rewrite <- Zlt_Qlt. lia. }
    rewrite double_negative by exact Lx.
    rewrite (round_pos_representable (- x) (- m) e); [ring | | lia | exact He].
    rewrite Hx, inject_Z_opp. ring.
  - subst m. assert (Zx : x == 0) by (rewrite Hx; ring).
    rewrite (double_zero x Zx). now rewrite Zx.
  - assert (Px : 0 < x).
    { rewrite Hx. apply Qmult_lt_0_compat; [|apply pow2_pos].
      change 0 with (inject_Z 0). rewrite <- Zlt_Qlt. lia. }
    rewrite double_positive by exact Px.
    apply (round_pos_representable x m e); [exact Hx | lia | exact He].
Qed.

(** Integers up to [2^53] are doubles. *)
Lemma representable_integer (z : Z) :
  (Z.abs z <= 2 ^ 53)%Z -> representable (inject_Z z).
Proof.
  intro H. destruct (Z.eq_dec (Z.abs z) (2 ^ 53)) as [E | N].
  - exists (z / 2)%Z, 1%Z. split; [|split; [|lia]].
    + change (pow2 1) with (inject_Z 2). rewrite <- inject_Z_mult.
      apply inject_Z_injective.
      assert (D : (z = 2 ^ 53 \/ z = - 2 ^ 53)%Z) by lia.
      destruct D as [-> | ->]; reflexivity.
    + assert (D : (z = 2 ^ 53 \/ z = - 2 ^ 53)%Z) by lia.
      destruct D as [-> | ->]; reflexivity.
  - exists z, 0%Z. split; [|split; [lia | lia]].
    change (pow2 0) with 1. ring.
Qed.

Lemma double_integer (z : Z) :
  (Z.abs z <= 2 ^ 53)%Z -> round (inject_Z z) == inject_Z z.
Proof. intro H. now apply double_representable, representable_integer. Qed.

(** ** The range of doubles *)

Lemma number_finite (x : Q) :
  - max_value <= round x -> round x <= max_value -> number x = Fin (round x).
Proof.
  intros L U. unfold number.
  apply Qle_bool_iff in L, U. now rewrite U, L.
Qed.

Lemma large_enough : inject_Z (2 ^ 53) <= max_value.
Proof. apply Qle_bool_iff. vm_compute. reflexivity. Qed.

(** Between two integers of at most 53 bits nothing overflows. *)
Lemma number_between (x : Q) (a b : Z) :
  (- 2 ^ 53 <= a)%Z -> (b <= 2 ^ 53)%Z ->
  inject_Z a <= x -> x <= inject_Z b ->
  number x = Fin (round x)
  /\ inject_Z a <= round x /\ round x <= inject_Z b.
Proof.
  intros Ha Hb L U.
  assert (Hab : (a <= b)%Z) by (rewrite Zle_Qle; eapply Qle_trans; eassumption).
  assert (L' : inject_Z a <= round x).
  { rewrite <- (double_integer a) by lia. now apply double_mono. }
  assert (U' : round x <= inject_Z b).
  { rewrite <- (double_integer b) by lia. now apply double_mono. }
  pose proof large_enough as M.
  assert (A : inject_Z (- 2 ^ 53) <= inject_Z a) by (rewrite <- Zle_Qle; lia).
  assert (B : inject_Z b <= inject_Z (2 ^ 53)) by (rewrite <- Zle_Qle; lia).
  rewrite inject_Z_opp in A.
  split; [|split; assumption].
  apply number_finite; lra.
Qed.

(** A rounded number is never [NaN]. *)
Lemma number_cases (x : Q) :
  (number x = Fin (round x) /\ - max_value <= round x <= max_value)
  \/ (number x = PInf /\ max_value < round x)
  \/ (number x = NInf /\ round x < - max_value).
Proof.
  unfold number.
  destruct (Qle_bool (round x) max_value) eqn:U.
  - apply Qle_bool_iff in U.
    destruct (Qle_bool (- max_value) (round x)) eqn:L.
    + apply Qle_bool_iff in L. left. now repeat split.
    + right; right. split; [reflexivity|].
      apply Qnot_le_lt. intro H. apply Qle_bool_iff in H. congruence.
  - right; left. split; [reflexivity|].
    apply Qnot_le_lt. intro H. apply Qle_bool_iff in H. congruence.
Qed.


Lemma representable_pow2 (k : Z) : (-1074 <= k)%Z -> representable (pow2 k).
Proof.
  intro H. exists 1%Z, k. split; [ring | split; [reflexivity | exact H]].
Qed.


Lemma below_max (k : Z) : (k <= 1023)%Z -> pow2 k <= max_value.
Proof.
  intro H. apply Qle_trans with (pow2 1023); [now apply pow2_le|].
  apply Qle_bool_iff. vm_compute. reflexivity.
Qed.

(** Below a power of two up to [2^1023] nothing overflows. *)
Lemma number_below (x : Q) (k : Z) :
  (-1074 <= k <= 1023)%Z -> - pow2 k <= x -> x <= pow2 k ->
  number x = Fin (round x) /\ - pow2 k <= round x /\ round x <= pow2 k.
Proof.
  intros Hk L U.
  pose proof (double_representable _ (representable_pow2 k ltac:(lia))) as P.
  assert (U' : round x <= pow2 k) by (rewrite <- P; now apply double_mono).
  assert (L' : - pow2 k <= round x).
  { assert (N : round (- pow2 k) == - pow2 k).
    { apply double_representable. exists (-1)%Z, k.
      split; [ring | split; [reflexivity | lia]]. }
    rewrite <- N. now apply double_mono. }
  pose proof (below_max k ltac:(lia)) as M.
  split; [|split; assumption].
  apply number_finite; lra.
Qed.

Lemma number_nonneg (x : Q) (k : Z) :
  (-1074 <= k <= 1023)%Z -> 0 <= x -> x <= pow2 k ->
  number x = Fin (round x) /\ 0 <= round x /\ round x <= pow2 k.
Proof.
  intros Hk L U. pose proof (pow2_pos k) as P.
  destruct (number_below x k Hk) as [E [_ B]]; [lra | exact U |].
  split; [exact E|]. split; [now apply double_nonneg | exact B].
Qed.

Lemma inject_Z_pred (z : Z) : inject_Z (z - 1) == inject_Z z - 1.
Proof.
  unfold Z.sub. rewrite inject_Z_plus, inject_Z_opp. reflexivity.
Qed.

(** Just below a double of moderate size lies another double, at most a
    sixteenth away. *)
Lemma double_below (y : Q) :
  representable y -> 0 < y -> y < pow2 49 ->
  exists z, representable z /\ y - (1 # 16) <= z /\ z < y.
Proof.
  intros [m [e [Hy [Hm He]]]] Py Uy.
  assert (Pm : (0 < m)%Z).
  { destruct (Z.lt_trichotomy m 0) as [N | [Z | P]]; [| |exact P]; exfalso.
    - assert (inject_Z m < 0)
        by (change 0 with (inject_Z 0); rewrite <- Zlt_Qlt; lia).
      assert (inject_Z m * pow2 e < 0 * pow2 e)
        by (apply Qmult_lt_compat_r; [apply pow2_pos | assumption]).
      lra.
    - subst m. setoid_replace (inject_Z 0 * pow2 e) with 0 in Hy by ring. lra. }
  destruct (Z_le_gt_dec e (-4)) as [Small | Large].
  - exists (inject_Z (m - 1) * pow2 e). split; [|split].
    + exists (m - 1)%Z, e. split; [reflexivity | split; [lia | exact He]].
    + assert (S : pow2 e <= 1 # 16) by (change (1 # 16) with (pow2 (-4)); now apply pow2_le).
      setoid_replace (inject_Z (m - 1) * pow2 e) with (y - pow2 e)
        by (rewrite inject_Z_pred, Hy; ring).
      lra.
    + setoid_replace (inject_Z (m - 1) * pow2 e) with (y - pow2 e)
        by (rewrite inject_Z_pred, Hy; ring).
      pose proof (pow2_pos e). lra.
  - assert (S : pow2 e == inject_Z (2 ^ (e + 4)) * pow2 (-4)).
    { rewrite <- pow2_nat by lia. rewrite <- pow2_add. now replace (e + 4 + -4)%Z with e by lia. }
    assert (Hy' : y == inject_Z (m * 2 ^ (e + 4)) * pow2 (-4))
      by (rewrite Hy, S, inject_Z_mult; ring).
    assert (B : (m * 2 ^ (e + 4) < 2 ^ 53)%Z).
    { rewrite Zlt_Qlt. rewrite Hy' in Uy.
      change (pow2 (-4)) with (1 # 16) in Uy.
      assert (T : pow2 49 == inject_Z (2 ^ 53) * (1 # 16)) by reflexivity.
      rewrite T in Uy. lra. }
    assert (Pp : (0 < 2 ^ (e + 4))%Z) by (apply Z.pow_pos_nonneg; lia).
    exists (inject_Z (m * 2 ^ (e + 4) - 1) * pow2 (-4)). split; [|split].
    + exists (m * 2 ^ (e + 4) - 1)%Z, (-4)%Z.
      split; [reflexivity | split; [nia | lia]].
    + setoid_replace (inject_Z (m * 2 ^ (e + 4) - 1) * pow2 (-4)) with (y - (1 # 16))
        by (rewrite inject_Z_pred, Hy'; change (pow2 (-4)) with (1 # 16); ring).
      apply Qle_refl.
    + setoid_replace (inject_Z (m * 2 ^ (e + 4) - 1) * pow2 (-4)) with (y - (1 # 16))
        by (rewrite inject_Z_pred, Hy'; change (pow2 (-4)) with (1 # 16); ring).
      lra.
Qed.

(** The literal [0.1] lies between a sixteenth and an eighth. *)
Lemma tenth_bounds : 1 # 16 <= tenth /\ tenth <= 1 # 8.
Proof. split; apply Qle_bool_iff; vm_compute; reflexivity. Qed.

End Doubles.

#[local] Instance double_Proper : Proper (Qeq ==> Qeq) Double.round.
Proof. exact double_comp. Qed.

(* ================================================================== *)
(** * The rounding error of a double *)
(* ================================================================== *)

Section RoundingError.

Import Double.

Lemma rne_near (x : Q) :
  x - (1 # 2) <= inject_Z (rne x) /\ inject_Z (rne x) <= x + (1 # 2).
Proof.
  pose proof (Qfloor_le x) as F1. pose proof (Qlt_floor x) as F2.
  rewrite inject_Z_plus in F2. change (inject_Z 1) with 1 in F2.
  destruct (rne_cases x) as [[-> H] | [-> H]].
  - split; lra.
  - rewrite inject_Z_plus. change (inject_Z 1) with 1. split; lra.
Qed.

(** A number in the normal range is rounded with a relative error of at
    most 2^-53. *)
Lemma double_error (x : Q) :
  pow2 (-1022) <= x ->
  x * (1 - (1 # 9007199254740992)) <= round x
  /\ round x <= x * (1 + (1 # 9007199254740992)).
Proof.
  intro N.
  assert (Px : 0 < x) by (eapply Qlt_le_trans; [apply pow2_pos | exact N]).
  destruct (ilog2_spec x Px) as [L _].
  assert (I : (-1022 <= ilog2 x)%Z).
  { rewrite <- (ilog2_unique (pow2 (-1022)) (-1022)).
    - apply ilog2_mono; [apply pow2_pos | exact N].
    - apply Qle_refl.
    - vm_compute. reflexivity. }
  assert (E : exponent x = (ilog2 x + -52)%Z) by (unfold exponent; lia).
  rewrite (double_positive x Px), round_pos_value, E.
  set (k := ilog2 x) in *. clearbody k.
  set (s := pow2 (k + -52)).
  assert (Ps : 0 < s) by apply pow2_pos.
  destruct (rne_near (x / s)) as [R1 R2].
  set (z := inject_Z (rne (x / s))) in *. clearbody z.
  assert (B : x / s * s == x) by apply scaled_back.
  assert (H : s * (1 # 2) <= x * (1 # 9007199254740992)).
  { unfold s. rewrite pow2_add.
    setoid_replace (pow2 k * pow2 (-52) * (1 # 2))
      with (pow2 k * (1 # 9007199254740992))
      by (setoid_replace (pow2 (-52)) with (1 # 4503599627370496) by reflexivity;
          ring).
    apply Qmult_le_compat_r; [exact L | discriminate]. }
  assert (M1 : (x / s - (1 # 2)) * s <= z * s)
    by (apply Qmult_le_compat_r; [exact R1 | now apply Qlt_le_weak]).
  assert (M2 : z * s <= (x / s + (1 # 2)) * s)
    by (apply Qmult_le_compat_r; [exact R2 | now apply Qlt_le_weak]).
  setoid_replace ((x / s - (1 # 2)) * s) with (x / s * s - s * (1 # 2)) in M1 by ring.
  setoid_replace ((x / s + (1 # 2)) * s) with (x / s * s + s * (1 # 2)) in M2 by ring.
  rewrite B in M1, M2.
  setoid_replace (x * (1 - (1 # 9007199254740992)))
    with (x - x * (1 # 9007199254740992)) by ring.
  setoid_replace (x * (1 + (1 # 9007199254740992)))
    with (x + x * (1 # 9007199254740992)) by ring.
  set (zs := z * s) in *. clearbody zs.
  set (xu := x * (1 # 9007199254740992)) in *. clearbody xu.
  set (sh := s * (1 # 2)) in *. clearbody sh.
  split; lra.
Qed.

(** The quotient of two positive numbers of moderate size, as a double. *)
Lemma quotient_value (p q : Q) (a b : Z) :
  (-500 <= a <= 500)%Z -> (-500 <= b <= 500)%Z ->
  pow2 (- a) <= p -> p <= pow2 a -> pow2 (- b) <= q -> q <= pow2 b ->
  exists c,
    div (Fin p) (Fin q) = Fin c
    /\ pow2 (- a - b - 1) <= c /\ c <= pow2 (a + b)
    /\ p * (1 - (1 # 9007199254740992)) <= c * q
    /\ c * q <= p * (1 + (1 # 9007199254740992)).
Proof.
  intros Ha Hb P1 P2 Q1 Q2.
  assert (Pp : 0 < p) by (eapply Qlt_le_trans; [apply pow2_pos | exact P1]).
  assert (Pq : 0 < q) by (eapply Qlt_le_trans; [apply pow2_pos | exact Q1]).
  assert (L : pow2 (- a - b) <= p / q).
  { apply Qle_shift_div_l; [exact Pq|].
    apply Qle_trans with (pow2 (- a - b) * pow2 b).
    - apply Qmult_le_l; [apply pow2_pos | exact Q2].
    - rewrite <- pow2_add. replace (- a - b + b)%Z with (- a)%Z by lia. exact P1. }
  assert (U : p / q <= pow2 (a + b)).
  { apply Qle_shift_div_r; [exact Pq|].
    apply Qle_trans with (pow2 (a + b) * pow2 (- b)).
    - rewrite <- pow2_add. replace (a + b + - b)%Z with a by lia. exact P2.
    - apply Qmult_le_l; [apply pow2_pos | exact Q1]. }
  assert (Pc : 0 < p / q) by (eapply Qlt_le_trans; [apply pow2_pos | exact L]).
  assert (N : pow2 (-1022) <= p / q)
    by (eapply Qle_trans; [|exact L]; apply pow2_le; lia).
  destruct (number_nonneg (p / q) (a + b) ltac:(lia)
              (Qlt_le_weak _ _ Pc) U) as [V [_ Ub]].
  destruct (double_error (p / q) N) as [E1 E2].
  exists (round (p / q)).
  split.
  { unfold div. replace (Qeq_bool q 0) with false; [exact V|].
    symmetry. apply not_true_iff_false. intro H. apply Qeq_bool_iff in H.
    rewrite H in Pq. now apply Qlt_irrefl in Pq. }
  assert (B : p / q * q == p) by (field; intro H; rewrite H in Pq;
                                   now apply Qlt_irrefl in Pq).
  split; [|split; [exact Ub|]].
  - apply Qle_trans with (p / q * (1 - (1 # 9007199254740992))); [|exact E1].
    apply Qle_trans with (pow2 (- a - b) * (1 # 2)).
    + replace (- a - b - 1)%Z with (- a - b + -1)%Z by lia.
      rewrite pow2_add. apply Qmult_le_l; [apply pow2_pos|].
      apply Qle_bool_iff. reflexivity.
    + apply Qle_trans with (p / q * (1 # 2)).
      * apply Qmult_le_compat_r; [exact L | discriminate].
      * apply Qmult_le_l; [exact Pc | apply Qle_bool_iff; reflexivity].
  - split.
    + setoid_replace (p * (1 - (1 # 9007199254740992)))
        with (p / q * (1 - (1 # 9007199254740992)) * q)
        by (rewrite <- B at 1; ring).
      apply Qmult_le_compat_r; [exact E1 | now apply Qlt_le_weak].
    + setoid_replace (p * (1 + (1 # 9007199254740992)))
        with (p / q * (1 + (1 # 9007199254740992)) * q)
        by (rewrite <- B at 1; ring).
      apply Qmult_le_compat_r; [exact E2 | now apply Qlt_le_weak].
Qed.

End RoundingError.

(* ================================================================== *)
(** * Arithmetic of the loop bound *)
(* ================================================================== *)

Section LoopBound.

Lemma lt_ceiling (z : Z) (q : Q) : inject_Z z < q <-> (z < Qceiling q)%Z.
Proof.
  split; intro H.
  - rewrite Zlt_Qlt. eapply Qlt_le_trans; [exact H | apply Qle_ceiling].
  - apply Qle_lt_trans with (inject_Z (Qceiling q - 1)).
    + rewrite <- Zle_Qle. lia.
    + apply Qceiling_lt.
Qed.

Lemma of_nat_lt (i : nat) (q : Q) :
  nlt (of_nat i) (Fin q) = true <-> (i < Z.to_nat (Qceiling q))%nat.
Proof.
  unfold nlt, of_nat.
  rewrite negb_true_iff, <- not_true_iff_false, Qle_bool_iff.
  transitivity (inject_Z (Z.of_nat i) < q).
  - split; [apply Qnot_le_lt | apply Qlt_not_le].
  - rewrite lt_ceiling. lia.
Qed.

Lemma of_nat_lt_false (i : nat) (q : Q) :
  nlt (of_nat i) (Fin q) = false <-> (Z.to_nat (Qceiling q) <= i)%nat.
Proof.
  rewrite <- not_true_iff_false, of_nat_lt. lia.
Qed.

(** The cap [rate * maxDuration] never changes how many indices lie below
    the frame count. *)
Lemma ceiling_capped (a b : Q) :
  a <= b -> Qceiling (Qmin (inject_Z (Qceiling a)) b) = Qceiling a.
Proof.
  intro Hab.
  destruct (Q.min_spec (inject_Z (Qceiling a)) b) as [[_ E] | [Hle E]];
    rewrite E.
  - apply Qceiling_Z.
  - apply Z.le_antisymm.
    + rewrite <- (Qceiling_Z (Qceiling a)). now apply Qceiling_resp_le.
    + now apply Qceiling_resp_le.
Qed.


Lemma ceiling_below (q : Q) (z : Z) : q <= inject_Z z -> (Qceiling q <= z)%Z.
Proof.
  intro H. rewrite <- (Qceiling_Z z). now apply Qceiling_resp_le.
Qed.

Lemma power_53 : 2 ^ 53 == inject_Z (2 ^ 53).
Proof. reflexivity. Qed.

End LoopBound.

(* ================================================================== *)
(** * The timestamp plan of the first extractor *)
(* ================================================================== *)

(** The loop visits exactly the indices below [ceil totalFrames]. *)
Lemma times_seq (duration step : num) (total : Q) :
  forall k i fuel,
    (i + k = Z.to_nat (Qceiling total))%nat -> (k < fuel)%nat ->
    SimpleExtractor.times fuel duration (Fin total) step i
    = Some (map (SimpleExtractor.frame_time duration step) (seq i k)).
Proof.
  induction k as [|k IH]; intros i fuel Hik Hfuel;
    (destruct fuel as [|fuel]; [lia|]); cbn [SimpleExtractor.times seq map].
  - replace (nlt (of_nat i) (Fin total)) with false; [reflexivity|].
    symmetry. apply of_nat_lt_false. lia.
  - replace (nlt (of_nat i) (Fin total)) with true
      by (symmetry; apply of_nat_lt; lia).
    rewrite (IH (S i) fuel) by lia. reflexivity.
Qed.

Section Planner.

Variables d r m : Q.
Hypothesis d_pos : 0 < d.
Hypothesis r_pos : 0 < r.
Hypothesis m_pos : 0 < m.
Hypothesis frames_cap : r * m <= 2 ^ 53.

(** The capped duration, the two rounded products and the frame count the
    code computes. *)
Let eff : Q := Qmin d m.
Let product : Q := Double.round (eff * r).
Let cap : Q := Double.round (r * m).
Let total : Q := Qmin (inject_Z (Qceiling product)) cap.
Let n : nat := Z.to_nat (Qceiling product).
Let step : num := Double.div (Fin eff) (Fin total).

Lemma eff_pos : 0 < eff.
Proof. unfold eff. apply Q.min_glb_lt; assumption. Qed.

Lemma eff_le_cap : eff * r <= r * m.
Proof.
  rewrite (Qmult_comm r m). apply Qmult_le_compat_r.
  - apply Q.le_min_r.
  - now apply Qlt_le_weak.
Qed.

Lemma product_value :
  Double.mul (Fin eff) (Fin r) = Fin product /\ 0 <= product /\ product <= cap.
Proof.
  pose proof eff_pos as E. pose proof eff_le_cap as C.
  assert (P : 0 <= eff * r)
    by (apply Qmult_le_0_compat; now apply Qlt_le_weak).
  destruct (number_nonneg (eff * r) 53 ltac:(lia) P) as [V [L _]].
  { eapply Qle_trans; [exact C | exact frames_cap]. }
  split; [exact V|]. split; [exact L | now apply double_mono].
Qed.

Lemma cap_value :
  Double.mul (Fin r) (Fin m) = Fin cap /\ cap <= 2 ^ 53.
Proof.
  assert (P : 0 <= r * m)
    by (apply Qmult_le_0_compat; now apply Qlt_le_weak).
  destruct (number_nonneg (r * m) 53 ltac:(lia) P frames_cap) as [V [_ U]].
  split; [exact V | exact U].
Qed.

Lemma plan_value :
  SimpleExtractor.plan (Fin r) (Fin m) (Fin d)
  = if Qle_bool total 0
    then inl "Invalid video duration or frame count"%string
    else inr (Fin eff, Fin total).
Proof.
  unfold SimpleExtractor.plan. cbn [nmin]. fold eff.
  rewrite (proj1 product_value), (proj1 cap_value). reflexivity.
Qed.

Lemma total_pos : 0 < product -> 0 < total.
Proof.
  intro H. unfold total. apply Q.min_glb_lt.
  - eapply Qlt_le_trans; [exact H | apply Qle_ceiling].
  - eapply Qlt_le_trans; [exact H | apply product_value].
Qed.

Lemma plan_accepts :
  0 < product ->
  SimpleExtractor.plan (Fin r) (Fin m) (Fin d) = inr (Fin eff, Fin total).
Proof.
  intro H. rewrite plan_value.
  destruct (Qle_bool total 0) eqn:E; [|reflexivity].
  apply Qle_bool_iff in E. exfalso.
  apply (Qlt_not_le _ _ (total_pos H) E).
Qed.

(** A product that underflows to 0 leaves no frame to plan. *)
Lemma plan_underflow :
  product == 0 ->
  SimpleExtractor.plan (Fin r) (Fin m) (Fin d)
  = inl "Invalid video duration or frame count"%string.
Proof.
  intro H. rewrite plan_value.
  replace (Qle_bool total 0) with true; [reflexivity|].
  symmetry. apply Qle_bool_iff. unfold total.
  eapply Qle_trans; [apply Q.le_min_l|].
  change 0 with (inject_Z 0). rewrite <- Zle_Qle.
  apply ceiling_below. rewrite H. apply Qle_refl.
Qed.

Lemma total_indices : Z.to_nat (Qceiling total) = n.
Proof.
  unfold total, n. rewrite ceiling_capped; [reflexivity | apply product_value].
Qed.


Lemma timestamps_planned (fuel : nat) :
  0 < product -> (n < fuel)%nat ->
  SimpleExtractor.timestamps fuel (Fin d) (Fin r) (Fin m)
  = SimpleExtractor.Planned
      (map (SimpleExtractor.frame_time (Fin eff) step) (seq 0 n)).
Proof.
  intros Hp Hfuel. unfold SimpleExtractor.timestamps.
  rewrite (plan_accepts Hp).
  rewrite (times_seq _ _ total n 0 fuel) by (rewrite ?total_indices; lia).
  reflexivity.
Qed.

End Planner.

Section PlanShape.

Variables d r m : Q.
Hypothesis d_pos : 0 < d.
Hypothesis r_pos : 0 < r.
Hypothesis m_pos : 0 < m.
Hypothesis d_double : Double.representable d.
Hypothesis m_double : Double.representable m.
Hypothesis cap_bound : m <= 2 ^ 48.
Hypothesis one_frame : 1 <= r * m.
Hypothesis frames_cap : r * m <= 2 ^ 53.
Hypothesis accepted : 0 < Double.round (Qmin d m * r).

Let eff : Q := Qmin d m.
Let product : Q := Double.round (eff * r).
Let cap : Q := Double.round (r * m).
Let total : Q := Qmin (inject_Z (Qceiling product)) cap.
Let n : nat := Z.to_nat (Qceiling product).

(** The rounded step and the rounded end guard. *)
Let s : Q := Double.round (eff / total).
Let guard : Q := Double.round (eff - Double.tenth).










End PlanShape.

(** C1 (as amended).  For positive duration, rate and maxDuration, with a
    cap of at most 2^53 frames and a product effectiveDuration * rate that
    does not underflow to 0, the first extractor visits timestamps[i] =
    min(i * (effectiveDuration/totalFrames), effectiveDuration - 0.1) for
    the integers 0 <= i < totalFrames, where effectiveDuration =
    min(duration, maxDuration), totalFrames = min(ceil(effectiveDuration *
    rate), rate * maxDuration), and every product, quotient and difference
    is rounded to a double; there are ceil(effectiveDuration * rate) of
    them.  When ceil(effectiveDuration * rate) <= rate * maxDuration this
    is the plan of the specification.  For the double 9.95, rate 2 and
    maxDuration 30 it has 20 timestamps, the first 0 and the last the
    double 9.452499999999999. *)
Theorem planner_formula :
  (forall d r m : Q, 0 < d -> 0 < r -> 0 < m ->
   r * m <= 2 ^ 53 -> 0 < Double.round (Qmin d m * r) ->
   forall fuel, (Z.to_nat (Spec.totalFrames d r m) < fuel)%nat ->
     let eff := Qmin d m in
     let total := Qmin (inject_Z (Qceiling (Double.round (eff * r))))
                       (Double.round (r * m)) in
     SimpleExtractor.timestamps fuel (Fin d) (Fin r) (Fin m)
     = SimpleExtractor.Planned
         (map (fun i => nmin (Double.mul (of_nat i)
                                         (Double.div (Fin eff) (Fin total)))
                             (Double.sub (Fin eff) (Fin Double.tenth)))
              (seq 0 (Z.to_nat (Qceiling (Double.round (eff * r))))))
     /\ (inject_Z (Qceiling (Double.round (eff * r))) <= Double.round (r * m) ->
         SimpleExtractor.timestamps fuel (Fin d) (Fin r) (Fin m)
         = SimpleExtractor.Planned (Spec.timestamps d r m)))
  /\ (exists ts,
        SimpleExtractor.timestamps 21 (Fin (Double.round (995 # 100)))
          (Fin 2) (Fin 30)
        = SimpleExtractor.Planned ts
        /\ List.length ts = 20%nat
        /\ nth 0 ts NaN =n= Fin 0
        /\ nth 19 ts NaN =n= Fin (5321284434714951 # 562949953421312)).
Proof.
  split.
  - intros d r m Hd Hr Hm Hcap Hp fuel Hfuel eff total.
    assert (E := timestamps_planned d r m Hd Hr Hm Hcap fuel Hp Hfuel).
    split; [exact E|].
    intro Hle. rewrite E. unfold Spec.timestamps, Spec.totalFrames,
      Spec.effectiveDuration. fold eff.
    replace (Qmin (inject_Z (Qceiling (Double.round (eff * r))))
                  (Double.round (r * m)))
      with (inject_Z (Qceiling (Double.round (eff * r)))); [reflexivity|].
    unfold Qmin, GenericMinMax.gmin.
    destruct (inject_Z (Qceiling (Double.round (eff * r)))
              ?= Double.round (r * m)) eqn:C; try reflexivity.
    apply Qgt_alt in C. exfalso. apply (Qlt_not_le _ _ C Hle).
  - eexists. split; [vm_compute; reflexivity|].
    repeat split; vm_compute; reflexivity.
Qed.

(** The theorem at duration 5, rate 1/2 and maxDuration 3, where the cap
    1.5 is below ceil(1.5) = 2. *)
Lemma planner_formula_witness :
  SimpleExtractor.timestamps 3 (Fin 5) (Fin (1 # 2)) (Fin 3)
  = SimpleExtractor.Planned
      (map (fun i => nmin (Double.mul (of_nat i)
                             (Double.div (Fin (Qmin 5 3))
                                (Fin (Qmin (inject_Z (Qceiling (Double.round (Qmin 5 3 * (1 # 2)))))
                                           (Double.round ((1 # 2) * 3))))))
                          (Double.sub (Fin (Qmin 5 3)) (Fin Double.tenth)))
           (seq 0 (Z.to_nat (Qceiling (Double.round (Qmin 5 3 * (1 # 2))))))).
Proof.
  apply (proj1 planner_formula 5 (1 # 2) 3); try reflexivity.
  - apply Qle_bool_iff. vm_compute. reflexivity.
  - vm_compute. lia.
Defined.

(** C1 (as stated) fails twice.  At duration 5, rate 1/2, maxDuration 3 the
    code takes totalFrames = min(2, 1.5) = 1.5 and visits 0 and 2, where
    the formula of the specification gives 0 and 1.5.  And in the example
    of the specification the last timestamp is not 9.4525, nor the double
    nearest to it, but the double just below that. *)
Lemma planner_formula_counterexample :
  (exists ts,
      SimpleExtractor.timestamps 3 (Fin 5) (Fin (1 # 2)) (Fin 3)
      = SimpleExtractor.Planned ts
      /\ ~ Spec.same_plan ts (Spec.timestamps 5 (1 # 2) 3))
  /\ (exists ts,
      SimpleExtractor.timestamps 21 (Fin (Double.round (995 # 100)))
        (Fin 2) (Fin 30)
      = SimpleExtractor.Planned ts
      /\ ~ nth 19 ts NaN =n= Fin (94525 # 10000)
      /\ ~ nth 19 ts NaN =n= Fin (Double.round (94525 # 10000))).
Proof.
  split.
  - eexists. split; [vm_compute; reflexivity|].
    intro H. unfold Spec.same_plan in H. vm_compute in H.
    inversion H as [|a b l l' Hab Hrest]; subst.
    inversion Hrest as [|a' b' k k' Hab' _]; subst.
    discriminate Hab'.
  - eexists. split; [vm_compute; reflexivity|].
    split; intro H; vm_compute in H; discriminate H.
Qed.



(* ================================================================== *)
(** * The guard against a second run, and the options of the second
      extractor *)
(* ================================================================== *)

(** C9.  On either extractor, [extractFrames] called while a run is active
    throws 'Extraction already in progress', fires no callback and leaves
    every field of the extractor as it was. *)
Theorem already_in_progress :
  (forall fuel e x,
      SimpleExtractor.isProcessing x = true ->
      SimpleExtractor.extractFrames fuel e x
      = Some (SimpleExtractor.mkRun x []
                (SimpleExtractor.Threw "Extraction already in progress")))
  /\ (forall fuel e o x,
      SequenceExtractor.isProcessing x = true ->
      SequenceExtractor.extractFrames fuel e o x
      = Some (SequenceExtractor.mkRun x []
                (SequenceExtractor.Threw "Extraction already in progress"))).
Proof.
  split; intros.
  - unfold SimpleExtractor.extractFrames. now rewrite H.
  - unfold SequenceExtractor.extractFrames. now rewrite H.
Qed.

(** A second call on a first extractor whose run has just begun. *)
Lemma already_in_progress_witness :
  SimpleExtractor.extractFrames 0
    (SimpleExtractor.mkEnv SimpleExtractor.LoadFails false
       (fun _ => SimpleExtractor.mkFrameEnv true false
                   SimpleExtractor.CaptureThrows false false))
    (SimpleExtractor.begin_run SimpleExtractor.constructor)
  = Some (SimpleExtractor.mkRun
            (SimpleExtractor.begin_run SimpleExtractor.constructor) []
            (SimpleExtractor.Threw "Extraction already in progress")).
Proof.
  apply (proj1 already_in_progress). reflexivity.
Defined.

Section Options.

Import SequenceExtractor.

(** A falsy option leaves the configured value in place. *)
Lemma or_else_zero (z : Q) (current : num) :
  z == 0 -> or_else (Some (Fin z)) current = current.
Proof.
  intro Hz. simpl. apply Qeq_bool_iff in Hz. now rewrite Hz.
Qed.

Lemma or_else_truthy (o : option num) (current : num) :
  truthy current = true -> truthy (or_else o current) = true.
Proof.
  intro H. destruct o as [v|]; simpl; [|exact H].
  destruct (truthy v) eqn:E; assumption.
Qed.

(** The frame sequence never writes the three configuration fields. *)
Lemma sequence_keeps_config (e : env) (total interval duration : num) :
  forall fuel start x x' evs res early,
    extractFrameSequence fuel e start total interval duration x
    = Some (x', evs, res, early) ->
    frameRate x' = frameRate x
    /\ maxDuration x' = maxDuration x
    /\ quality x' = quality x.
Proof.
  induction fuel as [|fuel IH]; intros start x x' evs res early H; [discriminate|].
  cbn [extractFrameSequence] in H.
  destruct (nge (of_nat start) total); [now inversion H|].
  destruct (frame e start) as [ranges sk c1 cap c2];
    cbn [seekable seek captured cancel_during_capture cancel_during_delay] in H.
  destruct sk as [|msg|]; try (destruct (cancelled x) eqn:Cx);
    try (inversion H; subst; now destruct c1);
    (destruct cap as [msg' | fd [msg' | | pv]];
     [ inversion H; subst; now destruct c1
     | inversion H; subst; now destruct c1
     | inversion H; subst; now destruct c1
     | match type of H with (if ?c then _ else _) = _ => destruct c end;
       [ match type of H with
         | match ?call with _ => _ end = _ =>
             destruct call as [[[[x5 evs5] r] early5]|] eqn:E
         end; [|discriminate];
         apply IH in E; inversion H; subst;
         destruct E as [E1 [E2 E3]]; rewrite E1, E2, E3; now destruct c1, c2
       | inversion H; subst; now destruct c1 ] ]).
Qed.

(** C10.  [extractFrames] of the second extractor applies each option with
    a truthiness fallback: an option [frameRate], [maxDuration] or [quality]
    equal to 0 is ignored and the field keeps the value configured before
    the call.  More generally a field that is not 0 (nor NaN) before the
    call is not 0 after it, whatever the options; and nothing later in the
    run writes the three fields, so this is also their value when the run
    has ended. *)
Theorem zero_option_ignored :
  forall o x,
    (forall z, opt_frameRate o = Some (Fin z) -> z == 0 ->
               frameRate (begin_run o x) = frameRate x)
    /\ (forall z, opt_maxDuration o = Some (Fin z) -> z == 0 ->
                  maxDuration (begin_run o x) = maxDuration x)
    /\ (forall z, opt_quality o = Some (Fin z) -> z == 0 ->
                  quality (begin_run o x) = quality x)
    /\ (truthy (frameRate x) = true -> truthy (frameRate (begin_run o x)) = true)
    /\ (truthy (maxDuration x) = true -> truthy (maxDuration (begin_run o x)) = true)
    /\ (truthy (quality x) = true -> truthy (quality (begin_run o x)) = true)
    /\ (forall fuel e r,
          isProcessing x = false ->
          extractFrames fuel e o x = Some r ->
          frameRate (final r) = frameRate (begin_run o x)
          /\ maxDuration (final r) = maxDuration (begin_run o x)
          /\ quality (final r) = quality (begin_run o x)).
Proof.
  intros o x. cbn [begin_run frameRate maxDuration quality].
  repeat match goal with |- _ /\ _ => split end;
    try (intros z Ho Hz; rewrite Ho; now apply or_else_zero);
    try apply or_else_truthy.
  intros fuel e r Hidle Hrun.
  unfold extractFrames in Hrun. rewrite Hidle in Hrun.
  destruct (load e) as [msg | vd].
  - inversion Hrun; subst. now destruct (cancel_during_load e).
  - match type of Hrun with
    | match ?call with _ => _ end = _ =>
        destruct call as [[[[x3 evs] res] early]|] eqn:E
    end; [|discriminate].
    apply sequence_keeps_config in E. destruct E as [E1 [E2 E3]].
    assert (F : frameRate x3 = or_else (opt_frameRate o) (frameRate x)
                /\ maxDuration x3 = or_else (opt_maxDuration o) (maxDuration x)
                /\ quality x3 = or_else (opt_quality o) (quality x)).
    { rewrite E1, E2, E3. now destruct (cancel_during_load e). }
    destruct res as [| err |]; try destruct (negb (cancelled x3));
      inversion Hrun; subst; exact F.
Qed.

End Options.

(** All three options are 0 on a fresh extractor: the defaults 2, 30 and
    0.7 survive. *)
Lemma zero_option_ignored_witness :
  SequenceExtractor.frameRate
    (SequenceExtractor.begin_run
       (SequenceExtractor.mkOptions (Some (Fin 0)) (Some (Fin 0)) (Some (Fin 0)))
       SequenceExtractor.constructor) = Fin 2
  /\ SequenceExtractor.maxDuration
       (SequenceExtractor.begin_run
          (SequenceExtractor.mkOptions (Some (Fin 0)) (Some (Fin 0)) (Some (Fin 0)))
          SequenceExtractor.constructor) = Fin 30
  /\ SequenceExtractor.quality
       (SequenceExtractor.begin_run
          (SequenceExtractor.mkOptions (Some (Fin 0)) (Some (Fin 0)) (Some (Fin 0)))
          SequenceExtractor.constructor) = Fin (7 # 10).
Proof.
  destruct (zero_option_ignored
              (SequenceExtractor.mkOptions (Some (Fin 0)) (Some (Fin 0))
                 (Some (Fin 0)))
              SequenceExtractor.constructor)
    as [H1 [H2 [H3 _]]].
  split; [apply (H1 0); reflexivity|].
  split; [apply (H2 0) | apply (H3 0)]; reflexivity.
Defined.

(* ================================================================== *)
(** * Degenerate durations *)
(* ================================================================== *)

Section Degenerate.

(** The smaller of a number that is not positive and a rounded product is
    not positive. *)
Lemma capped_nonpositive (c x : Q) :
  c <= 0 -> nle (nmin (Fin c) (Double.number x)) (Fin 0) = true.
Proof.
  intro H.
  destruct (number_cases x) as [[E _] | [[E _] | [E _]]]; rewrite E;
    cbn [nmin nle]; try reflexivity; apply Qle_bool_iff;
    [eapply Qle_trans; [apply Q.le_min_l | exact H] | exact H].
Qed.

Lemma capped_minus_infinity (x : Q) :
  nle (nmin NInf (Double.number x)) (Fin 0) = true.
Proof.
  destruct (number_cases x) as [[E _] | [[E _] | [E _]]]; now rewrite E.
Qed.

(** A frame count whose ceiling is not positive is rejected, whatever the
    signs of the inputs. *)
Lemma plan_rejects_empty (d r m : Q) :
  (Spec.totalFrames d r m <= 0)%Z ->
  SimpleExtractor.plan (Fin r) (Fin m) (Fin d)
  = inl "Invalid video duration or frame count"%string.
Proof.
  unfold Spec.totalFrames, Spec.effectiveDuration. intro H.
  unfold SimpleExtractor.plan. cbn [nmin]. unfold Double.mul.
  assert (C : Double.round (Qmin d m * r) <= 0).
  { eapply Qle_trans; [apply Qle_ceiling|].
    change 0 with (inject_Z 0). now rewrite <- Zle_Qle. }
  destruct (number_cases (Qmin d m * r)) as [[E _] | [[E B] | [E _]]];
    rewrite E; cbn [nceil].
  - rewrite capped_nonpositive; [reflexivity|].
    change 0 with (inject_Z 0). now rewrite <- Zle_Qle.
  - exfalso. assert (P : 0 < Double.max_value) by reflexivity. lra.
  - now rewrite capped_minus_infinity.
Qed.

Lemma nonpositive_duration_empty (d r m : Q) :
  d <= 0 -> 0 < r -> 0 < m -> (Spec.totalFrames d r m <= 0)%Z.
Proof.
  intros Hd Hr Hm. unfold Spec.totalFrames, Spec.effectiveDuration.
  apply ceiling_below. apply double_nonpos.
  assert (E : Qmin d m <= 0) by (eapply Qle_trans; [apply Q.le_min_l | exact Hd]).
  setoid_replace 0 with (0 * r) by ring.
  apply Qmult_le_compat_r; [exact E | now apply Qlt_le_weak].
Qed.

Lemma plan_rejects_minus_infinity (r m : Q) :
  0 < r ->
  SimpleExtractor.plan (Fin r) (Fin m) NInf
  = inl "Invalid video duration or frame count"%string.
Proof.
  intro Hr. unfold SimpleExtractor.plan. cbn [nmin]. unfold Double.mul.
  cbn [nmul]. apply Qgt_alt in Hr. rewrite Hr. cbn [nceil].
  now rewrite capped_minus_infinity.
Qed.

End Degenerate.

(** C7 (as amended).  In the first extractor a run whose video duration is
    finite and <= 0, or minus infinity, or whose frame count
    ceil(effectiveDuration * rate) is <= 0, is rejected with 'Invalid video
    duration or frame count' before the loop starts: no capture is logged,
    only the error callback fires and the extractor is left without frames.
    In the batch sampler a probed duration that is null, NaN or <= 0 fails
    the run with 'Invalid video duration' and no frames. *)
Theorem degenerate_input_rejected :
  (forall fuel e x (r m : Q) videoDuration,
      SimpleExtractor.isProcessing x = false ->
      SimpleExtractor.frameRate x = Fin r ->
      SimpleExtractor.maxDuration x = Fin m ->
      SimpleExtractor.load e = SimpleExtractor.Metadata videoDuration ->
      (exists d, videoDuration = Fin d /\ d <= 0 /\ 0 < r /\ 0 < m)
      \/ (videoDuration = NInf /\ 0 < r)
      \/ (exists d, videoDuration = Fin d /\ (Spec.totalFrames d r m <= 0)%Z) ->
      exists x',
        SimpleExtractor.extractFrames fuel e x
        = Some (SimpleExtractor.mkRun x'
                  (SimpleExtractor.mark (SimpleExtractor.cleanup_during_load e)
                   ++ (if SimpleExtractor.onError x
                       then [SimpleExtractor.Error "Invalid video duration or frame count"]
                       else []))
                  (SimpleExtractor.Threw "Invalid video duration or frame count"))
        /\ SimpleExtractor.frames x' = []
        /\ SimpleExtractor.previewFrames x' = []
        /\ SimpleExtractor.isProcessing x' = false)
  /\ (forall duration frameCount inv order,
      duration = None \/ duration = Some NaN \/ duration = Some NInf
      \/ (exists d, duration = Some (Fin d) /\ d <= 0) ->
      Server.extractVideoFrames duration frameCount inv order
      = inr (Server.FailedToExtractFrames (Server.InvalidVideoDuration duration))).
Proof.
  split.
  - intros fuel e x r m vd Hidle Hr Hm Hload Hbad.
    assert (P : SimpleExtractor.plan (Fin r) (Fin m) vd
                = inl "Invalid video duration or frame count"%string).
    { destruct Hbad as [[d [-> [Hd [H1 H2]]]] | [[-> H1] | [d [-> Hd]]]].
      - now apply plan_rejects_empty, nonpositive_duration_empty.
      - now apply plan_rejects_minus_infinity.
      - now apply plan_rejects_empty. }
    unfold SimpleExtractor.extractFrames. rewrite Hidle, Hload.
    unfold SimpleExtractor.loadVideo.
    destruct (SimpleExtractor.cleanup_during_load e);
      cbn [SimpleExtractor.host SimpleExtractor.cleanup SimpleExtractor.begin_run
           SimpleExtractor.frameRate SimpleExtractor.maxDuration
           SimpleExtractor.onError];
      rewrite Hr, Hm, P; eexists; (split; [reflexivity | repeat split]).
  - intros duration frameCount inv order
           [-> | [-> | [-> | [d [-> Hd]]]]]; try reflexivity.
    unfold Server.extractVideoFrames, Server.valid_duration; simpl.
    apply Qle_bool_iff in Hd. rewrite Hd.
    now rewrite andb_false_r.
Qed.

(** The theorem for a video of duration 0 on a fresh first extractor with
    an error callback. *)
Lemma degenerate_input_rejected_witness :
  exists x',
    SimpleExtractor.extractFrames 0
      (SimpleExtractor.mkEnv (SimpleExtractor.Metadata (Fin 0)) false
         (fun _ => SimpleExtractor.mkFrameEnv true false
                     SimpleExtractor.CaptureThrows false false))
      (SimpleExtractor.mkExtractor [] [] (Fin 2) (Fin 30)
         false false false false false true)
    = Some (SimpleExtractor.mkRun x'
              [SimpleExtractor.Error "Invalid video duration or frame count"]
              (SimpleExtractor.Threw "Invalid video duration or frame count"))
    /\ SimpleExtractor.frames x' = []
    /\ SimpleExtractor.previewFrames x' = []
    /\ SimpleExtractor.isProcessing x' = false.
Proof.
  apply (proj1 degenerate_input_rejected 0%nat
           (SimpleExtractor.mkEnv (SimpleExtractor.Metadata (Fin 0)) false
              (fun _ => SimpleExtractor.mkFrameEnv true false
                          SimpleExtractor.CaptureThrows false false))
           (SimpleExtractor.mkExtractor [] [] (Fin 2) (Fin 30)
              false false false false false true)
           2 30 (Fin 0) eq_refl eq_refl eq_refl eq_refl).
  left. exists 0. repeat split; discriminate.
Defined.

(** C7 (as stated) fails for a duration that is not finite: a video whose
    duration is +Infinity is capped to maxDuration = 30 and sampled; with
    every capture usable the run returns 60 frames. *)
Lemma degenerate_input_counterexample :
  exists r frames,
    SimpleExtractor.extractFrames 61
      (SimpleExtractor.mkEnv (SimpleExtractor.Metadata PInf) false
         (fun _ => SimpleExtractor.mkFrameEnv true false
                     (SimpleExtractor.Pixels [255%Z]
                        (SimpleExtractor.Encoded "data:image/jpeg" (Some "blob"%string)))
                     false false))
      SimpleExtractor.constructor = Some r
    /\ SimpleExtractor.result r = SimpleExtractor.Returned frames
    /\ List.length frames = 60%nat.
Proof.
  eexists. eexists. split; [vm_compute; reflexivity|].
  split; reflexivity.
Qed.

(* ================================================================== *)
(** * The planner of the batch sampler *)
(* ================================================================== *)

Section ServerPlan.

Variable d : Q.
Variable frameCount : nat.
Hypothesis d_pos : 0 < d.
Hypothesis d_bound : d <= 2 ^ 48.
Hypothesis d_double : Double.representable d.
Hypothesis count_bound : (Z.of_nat frameCount < 2 ^ 53)%Z.

(** The rounded interval and the rounded end guard. *)
Let interval : Q := Double.round (d / inject_Z (Z.of_nat (frameCount + 1))).
Let guard : Q := Double.round (d - Double.tenth).
Let target (i : nat) : Q :=
  Qmin (inject_Z (Qfloor (Double.round (interval * inject_Z (Z.of_nat i))))) guard.

Lemma interval_value :
  Double.div (Fin d) (of_nat (frameCount + 1)) = Fin interval
  /\ 0 <= interval /\ interval <= 2 ^ 48.
Proof.
  unfold Double.div, of_nat.
  assert (P : 1 <= inject_Z (Z.of_nat (frameCount + 1)))
    by (change 1 with (inject_Z 1); rewrite <- Zle_Qle; lia).
  assert (Pp : 0 < inject_Z (Z.of_nat (frameCount + 1)))
    by (eapply Qlt_le_trans; [|exact P]; reflexivity).
  replace (Qeq_bool (inject_Z (Z.of_nat (frameCount + 1))) 0) with false.
  2:{ symmetry. apply not_true_iff_false. intro H. apply Qeq_bool_iff in H.
      rewrite H in Pp. now apply Qlt_irrefl in Pp. }
  apply (number_nonneg _ 48); [lia | |].
  - apply Qle_shift_div_l; [exact Pp|]. rewrite Qmult_0_l.
    now apply Qlt_le_weak.
  - eapply Qle_trans; [|exact d_bound].
    apply Qle_shift_div_r; [exact Pp|].
    setoid_replace d with (d * 1) at 1 by ring.
    apply Qmult_le_l; [exact d_pos | exact P].
Qed.

Lemma server_guard_value :
  Double.sub (Fin d) (Fin Double.tenth) = Fin guard.
Proof.
  pose proof tenth_bounds as [T1 T2].
  assert (P : 0 < 2 ^ 48) by reflexivity.
  destruct (number_below (d - Double.tenth) 48 ltac:(lia)) as [V _];
    [change (Double.pow2 48) with (2 ^ 48); lra
    | change (Double.pow2 48) with (2 ^ 48); lra |].
  exact V.
Qed.

Lemma server_guard_below : guard < d.
Proof.
  pose proof tenth_bounds as [T1 T2].
  destruct (double_below d d_double d_pos) as [z [Rz [Lz Uz]]].
  - eapply Qle_lt_trans; [exact d_bound | reflexivity].
  - eapply Qle_lt_trans; [|exact Uz].
    unfold guard. rewrite <- (double_representable z Rz).
    apply double_mono. lra.
Qed.

Lemma target_value (i : nat) :
  (Z.of_nat i <= 2 ^ 53)%Z ->
  nmin (nfloor (Double.mul (Fin interval) (of_nat i)))
       (Double.sub (Fin d) (Fin Double.tenth))
  = Fin (target i).
Proof.
  intro Hi. pose proof interval_value as [_ [I0 I1]].
  rewrite server_guard_value. unfold Double.mul, of_nat.
  assert (N0 : 0 <= inject_Z (Z.of_nat i))
    by (change 0 with (inject_Z 0); rewrite <- Zle_Qle; lia).
  assert (N1 : inject_Z (Z.of_nat i) <= 2 ^ 53)
    by (rewrite power_53, <- Zle_Qle; exact Hi).
  destruct (number_nonneg (interval * inject_Z (Z.of_nat i)) 101
              ltac:(lia)) as [V _].
  - now apply Qmult_le_0_compat.
  - assert (E : Double.pow2 101 == 2 ^ 48 * 2 ^ 53) by reflexivity.
    rewrite E.
    apply Qle_trans with (2 ^ 48 * inject_Z (Z.of_nat i)).
    + apply Qmult_le_compat_r; assumption.
    + apply Qmult_le_l; [reflexivity | exact N1].
  - now rewrite V.
Qed.

Lemma server_timestamps_targets :
  Server.timestamps (Fin d) frameCount = map Fin (map target (seq 1 frameCount)).
Proof.
  unfold Server.timestamps. rewrite (proj1 interval_value), map_map.
  apply map_ext_in. intros i Hi. apply in_seq in Hi.
  apply target_value. lia.
Qed.

Lemma target_mono (i j : nat) : (i <= j)%nat -> target i <= target j.
Proof.
  intro H. pose proof interval_value as [_ [I0 _]].
  unfold target. apply Q.min_le_compat_r.
  rewrite <- Zle_Qle. apply Qfloor_resp_le. apply double_mono.
  rewrite !(Qmult_comm interval).
  apply Qmult_le_compat_r; [|exact I0]. rewrite <- Zle_Qle. lia.
Qed.

Lemma target_nonneg (i : nat) : Double.tenth <= d -> 0 <= target i.
Proof.
  intro H. pose proof interval_value as [_ [I0 _]].
  unfold target. apply Q.min_glb.
  - change 0 with (inject_Z 0). rewrite <- Zle_Qle, <- (Qfloor_Z 0).
    apply Qfloor_resp_le. apply double_nonneg.
    apply Qmult_le_0_compat; [exact I0|].
    change 0 with (inject_Z 0). rewrite <- Zle_Qle. lia.
  - apply double_nonneg. lra.
Qed.

Lemma nth_error_targets (i : nat) (a : Q) :
  nth_error (map target (seq 1 frameCount)) i = Some a ->
  a = target (S i).
Proof.
  intro H. rewrite nth_error_map, nth_error_seq in H.
  destruct (i <? frameCount)%nat; cbn in H; congruence.
Qed.

(** C8 (as amended).  The batch sampler has a planner of its own, a function
    of the probed duration and a frame count: timestamps[i-1] =
    min(floor(i * (duration/(frameCount+1))), duration - 0.1) for i = 1 ..
    frameCount, where the quotient, the product and the difference are
    rounded to doubles.  For a duration of at most 2^48 seconds and fewer
    than 2^53 frames it yields frameCount timestamps, each a whole number
    of seconds or the end guard, and none above that guard. *)
Theorem batch_planner :
  Server.timestamps (Fin d) frameCount
  = map (fun i => Fin (Qmin (inject_Z (Qfloor (Double.round
                                                 (interval * inject_Z (Z.of_nat i)))))
                            guard))
        (seq 1 frameCount)
  /\ List.length (Server.timestamps (Fin d) frameCount) = frameCount
  /\ (forall t, In t (Server.timestamps (Fin d) frameCount) ->
        exists q, t = Fin q /\ q <= guard /\ (is_integer q \/ q = guard)).
Proof.
  pose proof server_timestamps_targets as E. rewrite map_map in E.
  split; [exact E|]. rewrite E. split; [now rewrite length_map, length_seq|].
  intros t Ht. apply in_map_iff in Ht as [i [<- _]].
  eexists. split; [reflexivity|]. split; [apply Q.le_min_r|].
  unfold target, Qmin, GenericMinMax.gmin.
  match goal with |- context [match ?c with _ => _ end] => destruct c end;
    [left | left | right]; try reflexivity; eexists; reflexivity.
Qed.

(** X10.  For a double duration greater than 0 (and at most 2^48 seconds)
    the batch timestamps are finite, come in non-decreasing order, and each
    is at most the end guard duration - 0.1 (rounded), which lies strictly
    before the end of the video; they are not negative once the duration is
    at least the double 0.1. *)
Theorem batch_timestamps_ordered :
  exists qs : list Q,
    Server.timestamps (Fin d) frameCount = map Fin qs
    /\ List.length qs = frameCount
    /\ (forall i j a b, (i <= j)%nat ->
          nth_error qs i = Some a -> nth_error qs j = Some b -> a <= b)
    /\ (forall q, In q qs -> q <= guard /\ q < d)
    /\ (Double.tenth <= d -> forall q, In q qs -> 0 <= q).
Proof.
  exists (map target (seq 1 frameCount)).
  split; [apply server_timestamps_targets|].
  split; [now rewrite length_map, length_seq|].
  split; [|split].
  - intros i j a b Hij Ha Hb.
    apply nth_error_targets in Ha, Hb. subst. apply target_mono. lia.
  - intros q Hq. apply in_map_iff in Hq as [i [<- _]].
    assert (H : target i <= guard) by apply Q.le_min_r.
    pose proof server_guard_below. split; [exact H | lra].
  - intros Hd q Hq. apply in_map_iff in Hq as [i [<- _]].
    now apply target_nonneg.
Qed.

End ServerPlan.

(** Twenty-one frames of a 30 s video: the eleventh timestamp is 14, the
    floor of the rounded product 14.999999999999998. *)
Lemma batch_planner_witness :
  (exists q,
      nth 10 (Server.timestamps (Fin 30) 21) NaN = Fin q
      /\ q <= Double.round (30 - Double.tenth)
      /\ (is_integer q \/ q = Double.round (30 - Double.tenth)))
  /\ nth 10 (Server.timestamps (Fin 30) 21) NaN =n= Fin 14.
Proof.
  split.
  - apply (proj2 (proj2 (batch_planner 30 21%nat eq_refl
                           ltac:(apply Qle_bool_iff; vm_compute; reflexivity)
                           ltac:(lia)))).
    vm_compute. do 10 right. left. reflexivity.
  - vm_compute. reflexivity.
Defined.

(** C8 (as stated) fails: for the double 9.95 the interactive plan (rate 2,
    cap 30) holds 0.49749999999999994, while every batch timestamp is a
    whole number or the end guard; no frame count makes the two lists
    equal. *)
Lemma batch_planner_counterexample :
  exists ts,
    SimpleExtractor.timestamps 21 (Fin (Double.round (995 # 100))) (Fin 2) (Fin 30)
    = SimpleExtractor.Planned ts
    /\ forall frameCount,
        ~ Spec.same_plan
            (Server.timestamps (Fin (Double.round (995 # 100))) frameCount) ts.
Proof.
  eexists. split; [vm_compute; reflexivity|].
  intros frameCount H.
  assert (L : frameCount = 20%nat).
  { apply Forall2_length in H.
    unfold Server.timestamps in H. now rewrite length_map, length_seq in H. }
  subst frameCount. unfold Spec.same_plan in H. vm_compute in H.
  inversion H as [|a b l l' _ Hrest]; subst.
  inversion Hrest as [|a' b' k k' Hab' _]; subst.
  discriminate Hab'.
Qed.

(** Ten frames of a 9.95 s video: non-decreasing, all before the end. *)
Lemma batch_timestamps_ordered_witness :
  exists qs : list Q,
    Server.timestamps (Fin (Double.round (995 # 100))) 10 = map Fin qs
    /\ List.length qs = 10%nat
    /\ (forall q, In q qs -> q < Double.round (995 # 100)).
Proof.
  destruct (batch_timestamps_ordered (Double.round (995 # 100)) 10 eq_refl)
    as [qs [H1 [H2 [_ [H3 _]]]]].
  - apply Qle_bool_iff. vm_compute. reflexivity.
  - exists 2800676018271027%Z, (-48)%Z.
    split; [vm_compute; reflexivity | split; [reflexivity | lia]].
  - lia.
  - exists qs. split; [exact H1|]. split; [exact H2|].
    intros q Hq. apply (H3 q Hq).
Defined.

(* ================================================================== *)
(** * Uninterrupted runs of the first extractor *)
(* ================================================================== *)

Section Uninterrupted.

Import SimpleExtractor SimpleRun.

Variable e : env.
Variables duration step : num.
Variable total : Q.
Hypothesis quiet : uninterrupted e.

Lemma attempt_uninterrupted (x : extractor) (i : nat) :
  attempt x (frame e i) i (Fin total) (frame_time duration step i)
  = (mkExtractor (frames x ++ files_of e i)
                 (previewFrames x ++ previews_of e duration step i)
                 (frameRate x) (maxDuration x) (isProcessing x)
                 (currentVideo x) (currentCanvas x)
                 (onProgress x) (onComplete x) (onError x),
     if usable (shot (frame e i)) && onProgress x
     then [Progress (S i) (Fin total) (toFixed2 (frame_time duration step i))]
     else [],
     true).
Proof.
  destruct quiet as [_ Hk]. destruct (Hk i) as [H0 [H1 [H2 H3]]].
  unfold attempt, files_of, previews_of. rewrite H0, H1, H2, H3.
  cbn [mark app negb].
  destruct x as [fs ps fr md ip cv cc op oc oe].
  destruct (shot (frame e i)) as [|data [|dataUrl [b|]]];
    cbn -[frame_time]; rewrite ?app_nil_r; try reflexivity;
    destruct (isEmpty data); cbn -[frame_time]; rewrite ?app_nil_r;
    reflexivity.
Qed.

(** The loop visits every index below [ceil total] once, in order. *)
Lemma loop_uninterrupted :
  forall k i fuel x,
    (i + k = Z.to_nat (Qceiling total))%nat -> (k < fuel)%nat ->
    isProcessing x = true ->
    loop fuel e duration (Fin total) step i x
    = Some (mkExtractor
              (frames x ++ flat_map (files_of e) (seq i k))
              (previewFrames x ++ flat_map (previews_of e duration step) (seq i k))
              (frameRate x) (maxDuration x) true
              (currentVideo x) (currentCanvas x)
              (onProgress x) (onComplete x) (onError x),
            flat_map (events_of e (onProgress x) duration (Fin total) step)
                     (seq i k),
            true).
Proof.
  induction k as [|k IH]; intros i fuel x Hik Hfuel Hx;
    (destruct fuel as [|fuel]; [lia|]); cbn [loop seq flat_map].
  - replace (nlt (of_nat i) (Fin total)) with false
      by (symmetry; apply of_nat_lt_false; lia).
    destruct x; simpl in *; subst. now rewrite !app_nil_r.
  - replace (nlt (of_nat i) (Fin total)) with true
      by (symmetry; apply of_nat_lt; lia).
    rewrite Hx. cbn [negb]. rewrite attempt_uninterrupted.
    rewrite (IH (S i) fuel) by (cbn; solve [lia | assumption]).
    cbn [frames previewFrames frameRate maxDuration currentVideo currentCanvas
         onProgress onComplete onError].
    unfold events_of at 2. rewrite <- !app_assoc. reflexivity.
Qed.

End Uninterrupted.

Section UninterruptedRun.

Import SimpleExtractor SimpleRun.

Variables d r m : Q.
Hypothesis d_pos : 0 < d.
Hypothesis r_pos : 0 < r.
Hypothesis m_pos : 0 < m.
Hypothesis frames_cap : r * m <= 2 ^ 53.

Variable e : env.
Variable x : extractor.
Hypothesis idle : isProcessing x = false.
Hypothesis rate_set : frameRate x = Fin r.
Hypothesis cap_set : maxDuration x = Fin m.
Hypothesis loaded : load e = Metadata (Fin d).
Hypothesis quiet : uninterrupted e.

Let eff : Q := Qmin d m.
Let total : Q :=
  Qmin (inject_Z (Spec.totalFrames d r m)) (Double.round (r * m)).
Let step : num := Double.div (Fin eff) (Fin total).
Let n : nat := Z.to_nat (Spec.totalFrames d r m).

(** The whole run: every planned index is visited, the completion callback
    fires once at the end and the extractor is cleaned up. *)
Lemma run_uninterrupted (fuel : nat) :
  0 < Double.round (Qmin d m * r) ->
  (n < fuel)%nat ->
  extractFrames fuel e x
  = Some (mkRun
            (mkExtractor [] [] (Fin r) (Fin m) false false false
                         (onProgress x) (onComplete x) (onError x))
            (flat_map (events_of e (onProgress x) (Fin eff) (Fin total) step)
                      (seq 0 n)
             ++ (if onComplete x
                 then [Complete (flat_map (previews_of e (Fin eff) step) (seq 0 n))]
                 else []))
            (Returned (flat_map (previews_of e (Fin eff) step) (seq 0 n)))).
Proof.
  intros Hacc Hfuel. unfold extractFrames. rewrite idle.
  destruct quiet as [Hl _]. rewrite Hl, loaded. cbn [host loadVideo].
  cbn [begin_run frameRate maxDuration]. rewrite rate_set, cap_set.
  rewrite (plan_accepts d r m d_pos r_pos m_pos frames_cap Hacc).
  fold eff. change (Qmin (inject_Z (Qceiling (Double.round (eff * r))))
                         (Double.round (r * m))) with total.
  fold step.
  rewrite (loop_uninterrupted e (Fin eff) step total quiet n 0 fuel);
    [ | | exact Hfuel | reflexivity].
  - cbn [cleanup store_references begin_run frames previewFrames frameRate
         maxDuration onProgress onComplete onError app].
    now rewrite rate_set, cap_set.
  - cbn [Nat.add]. symmetry.
    exact (total_indices d r m d_pos r_pos m_pos frames_cap).
Qed.

(** A product that underflows to 0 is rejected before the loop. *)
Lemma run_underflow (fuel : nat) :
  Double.round (Qmin d m * r) == 0 ->
  extractFrames fuel e x
  = Some (mkRun
            (mkExtractor [] [] (Fin r) (Fin m) false false false
                         (onProgress x) (onComplete x) (onError x))
            (if onError x
             then [Error "Invalid video duration or frame count"]
             else [])
            (Threw "Invalid video duration or frame count")).
Proof.
  intro Hz. unfold extractFrames. rewrite idle.
  destruct quiet as [Hl _]. rewrite Hl, loaded. cbn [host loadVideo].
  cbn [begin_run frameRate maxDuration]. rewrite rate_set, cap_set.
  rewrite (plan_underflow d r m d_pos r_pos m_pos frames_cap Hz).
  cbn [cleanup begin_run frames previewFrames frameRate maxDuration
       onProgress onComplete onError mark app].
  unfold cleanup, begin_run. cbn [frameRate maxDuration onProgress onComplete onError].
  now rewrite rate_set, cap_set.
Qed.


End UninterruptedRun.

(* ================================================================== *)
(** * Progress events and skipped frames *)
(* ================================================================== *)

Lemma filter_flat_map {A B : Type} (p : B -> bool) (f : A -> list B) (l : list A) :
  filter p (flat_map f l) = flat_map (fun a => filter p (f a)) l.
Proof.
  induction l as [|a l IH]; [reflexivity|].
  cbn [flat_map]. now rewrite filter_app, IH.
Qed.

(** C4 (as amended).  In a run of the first extractor that the host does
    not interrupt and whose seeks complete, with a progress callback
    installed, iteration i logs the attempt and then emits the progress
    event {current: i+1, total: totalFrames, time: time.toFixed(2)} exactly
    when the capture of i was usable; an empty frame or a capture that
    throws emits no progress event.  So the progress events of the run are
    those of the usable indices, in order.  The cap rate * maxDuration is
    at most 2^53 frames. *)
Theorem progress_after_usable_capture :
  forall (d r m : Q) e x fuel,
    0 < d -> 0 < r -> 0 < m -> r * m <= 2 ^ 53 ->
    SimpleExtractor.isProcessing x = false ->
    SimpleExtractor.onProgress x = true ->
    SimpleExtractor.frameRate x = Fin r ->
    SimpleExtractor.maxDuration x = Fin m ->
    SimpleExtractor.load e = SimpleExtractor.Metadata (Fin d) ->
    SimpleRun.uninterrupted e ->
    (Z.to_nat (Spec.totalFrames d r m) < fuel)%nat ->
    let eff := Qmin d m in
    let total := Qmin (inject_Z (Spec.totalFrames d r m)) (Double.round (r * m)) in
    let t := SimpleExtractor.frame_time (Fin eff) (Double.div (Fin eff) (Fin total)) in
    exists run completion,
      SimpleExtractor.extractFrames fuel e x = Some run
      /\ SimpleExtractor.trace run
         = flat_map
             (fun i =>
                SimpleExtractor.Log (S i) (Fin total) (SimpleExtractor.toFixed2 (t i))
                :: (if SimpleRun.usable (SimpleExtractor.shot (SimpleExtractor.frame e i))
                    then [SimpleExtractor.Progress (S i) (Fin total)
                            (SimpleExtractor.toFixed2 (t i))]
                    else []))
             (seq 0 (Z.to_nat (Spec.totalFrames d r m)))
           ++ completion
      /\ filter SimpleRun.is_progress completion = []
      /\ filter SimpleRun.is_progress (SimpleExtractor.trace run)
         = flat_map
             (fun i =>
                if SimpleRun.usable (SimpleExtractor.shot (SimpleExtractor.frame e i))
                then [SimpleExtractor.Progress (S i) (Fin total)
                        (SimpleExtractor.toFixed2 (t i))]
                else [])
             (seq 0 (Z.to_nat (Spec.totalFrames d r m))).
Proof.
  intros d r m e x fuel Hd Hr Hm Hcap Hidle Hcb Hrate Hmax Hload Hquiet Hfuel
         eff total t.
  destruct (Qlt_le_dec 0 (Double.round (Qmin d m * r))) as [Hacc | Hrej].
  - pose proof (run_uninterrupted d r m Hd Hr Hm Hcap e x Hidle Hrate Hmax Hload
                  Hquiet fuel Hacc Hfuel) as Hrun.
    rewrite Hcb in Hrun. fold eff in Hrun. fold total in Hrun.
    eexists. eexists. split; [exact Hrun|].
    cbn [SimpleExtractor.trace].
    match type of Hrun with
    | _ = Some (SimpleExtractor.mkRun _ (_ ++ ?c) _) =>
        assert (Hc : filter SimpleRun.is_progress c = [])
          by (now destruct (SimpleExtractor.onComplete x))
    end.
    split; [|split; [exact Hc|]].
    + f_equal. apply flat_map_ext. intro i. unfold SimpleRun.events_of.
      now rewrite andb_true_r.
    + rewrite filter_app, Hc, app_nil_r, filter_flat_map.
      apply flat_map_ext. intro i. unfold SimpleRun.events_of.
      rewrite andb_true_r. cbn [filter SimpleRun.is_progress].
      now destruct (SimpleRun.usable _).
  - assert (Hz : Double.round (Qmin d m * r) == 0).
    { apply Qle_antisym; [exact Hrej|]. apply double_nonneg.
      apply Qmult_le_0_compat; [|now apply Qlt_le_weak].
      apply Q.min_glb; now apply Qlt_le_weak. }
    pose proof (run_underflow d r m Hd Hr Hm Hcap e x Hidle Hrate Hmax Hload
                  Hquiet fuel Hz) as Hrun.
    assert (Hn : Z.to_nat (Spec.totalFrames d r m) = 0%nat).
    { unfold Spec.totalFrames, Spec.effectiveDuration.
      assert (H : (Qceiling (Double.round (Qmin d m * r)) <= 0)%Z)
        by (apply ceiling_below; rewrite Hz; apply Qle_refl).
      lia. }
    eexists. eexists. split; [exact Hrun|].
    cbn [SimpleExtractor.trace]. rewrite Hn. cbn [seq flat_map app].
    split; [reflexivity|].
    now destruct (SimpleExtractor.onError x).
Qed.

(** The theorem for a 1 s video whose first frame is usable and whose
    second frame is black. *)
Lemma progress_after_usable_capture_witness :
  exists run,
    SimpleExtractor.extractFrames 3
      (SimpleExtractor.mkEnv (SimpleExtractor.Metadata (Fin 1)) false
         (fun i => SimpleExtractor.mkFrameEnv true false
                     (SimpleExtractor.Pixels (if (i =? 0)%nat then [7%Z] else [0%Z])
                        (SimpleExtractor.Encoded "data:image/jpeg" None))
                     false false))
      (SimpleExtractor.mkExtractor [] [] (Fin 2) (Fin 30)
         false false false true false false) = Some run
    /\ List.length (filter SimpleRun.is_progress (SimpleExtractor.trace run)) = 1%nat.
Proof.
  destruct (progress_after_usable_capture 1 2 30
              (SimpleExtractor.mkEnv (SimpleExtractor.Metadata (Fin 1)) false
                 (fun i => SimpleExtractor.mkFrameEnv true false
                             (SimpleExtractor.Pixels
                                (if (i =? 0)%nat then [7%Z] else [0%Z])
                                (SimpleExtractor.Encoded "data:image/jpeg" None))
                             false false))
              (SimpleExtractor.mkExtractor [] [] (Fin 2) (Fin 30)
                 false false false true false false)
              3%nat eq_refl eq_refl eq_refl
              ltac:(apply Qle_bool_iff; vm_compute; reflexivity)
              eq_refl eq_refl eq_refl eq_refl eq_refl)
    as [run [completion [Hrun [_ [_ Hprogress]]]]].
  - split; [reflexivity | intro k; repeat split].
  - vm_compute. lia.
  - exists run. split; [exact Hrun|]. rewrite Hprogress. reflexivity.
Defined.

(** C4 (as stated) fails when a frame is skipped: a 0.5 s video has one
    planned index; its capture is black, the loop continues before the
    progress call, and the trace holds no progress event at all. *)
Lemma progress_after_usable_capture_counterexample :
  exists run,
    SimpleExtractor.extractFrames 2
      (SimpleExtractor.mkEnv (SimpleExtractor.Metadata (Fin (1 # 2))) false
         (fun _ => SimpleExtractor.mkFrameEnv true false
                     (SimpleExtractor.Pixels [0; 0; 0; 0]%Z
                        (SimpleExtractor.Encoded "data:image/jpeg" None))
                     false false))
      (SimpleExtractor.mkExtractor [] [] (Fin 2) (Fin 30)
         false false false true true false) = Some run
    /\ SimpleExtractor.trace run
       = [SimpleExtractor.Log 1 (Fin 1) (SimpleExtractor.toFixed2 (Fin 0));
          SimpleExtractor.Complete []]
    /\ filter SimpleRun.is_progress (SimpleExtractor.trace run) = [].
Proof.
  eexists. split; [vm_compute; reflexivity|]. split; reflexivity.
Qed.

Lemma isEmpty_all_zero (data : list Z) :
  SimpleExtractor.isEmpty data = true <-> Forall (fun channel => channel = 0%Z) data.
Proof.
  unfold SimpleExtractor.isEmpty. rewrite negb_true_iff.
  induction data as [|c data IH]; cbn [existsb].
  - split; [constructor | reflexivity].
  - rewrite orb_false_iff, negb_false_iff, Z.eqb_eq, IH.
    split.
    + intros [H1 H2]. now constructor.
    + intro H. inversion H; subst. now split.
Qed.

(** C6.  A captured buffer is empty exactly when every channel value is 0.
    An empty frame is skipped: the iteration (whose seek has completed)
    adds nothing to [frames] or [previewFrames] and fires no callback, and
    the loop goes on with the next index, so the frame is not tried again.
    In the batch sampler an artifact of 0 bytes adds no frame either.  The
    result can therefore be shorter than the plan: a 1 s video with two
    black frames has two planned timestamps and an empty result. *)
Theorem empty_frame_skipped :
  (forall data,
      SimpleExtractor.isEmpty data = true
      <-> Forall (fun channel => channel = 0%Z) data)
  /\ (forall x fe i total t data enc,
      SimpleExtractor.seeked fe = true ->
      SimpleExtractor.shot fe = SimpleExtractor.Pixels data enc ->
      SimpleExtractor.isEmpty data = true ->
      SimpleExtractor.attempt x fe i total t
      = (SimpleExtractor.host (SimpleExtractor.cleanup_during_seek fe) x,
         SimpleExtractor.mark (SimpleExtractor.cleanup_during_seek fe),
         true))
  /\ (forall fuel e duration total step i x data enc,
      nlt (of_nat i) total = true ->
      SimpleExtractor.isProcessing x = true ->
      SimpleExtractor.seeked (SimpleExtractor.frame e i) = true ->
      SimpleExtractor.shot (SimpleExtractor.frame e i)
      = SimpleExtractor.Pixels data enc ->
      SimpleExtractor.isEmpty data = true ->
      SimpleExtractor.loop (S fuel) e duration total step i x
      = match SimpleExtractor.loop fuel e duration total step (S i)
                (SimpleExtractor.host
                   (SimpleExtractor.cleanup_during_seek (SimpleExtractor.frame e i)) x)
        with
        | Some (x', evs, done) =>
            Some (x', SimpleExtractor.Log (S i) total
                        (SimpleExtractor.toFixed2
                           (SimpleExtractor.frame_time duration step i))
                      :: SimpleExtractor.mark
                           (SimpleExtractor.cleanup_during_seek
                              (SimpleExtractor.frame e i))
                      ++ evs,
                  done)
        | None => None
        end)
  /\ (forall ts inv index,
      inv index = Server.Artifact 0 -> Server.settled ts inv index = [])
  /\ (exists ts run,
      SimpleExtractor.timestamps 3 (Fin 1) (Fin 2) (Fin 30)
      = SimpleExtractor.Planned ts
      /\ List.length ts = 2%nat
      /\ SimpleExtractor.extractFrames 3
           (SimpleExtractor.mkEnv (SimpleExtractor.Metadata (Fin 1)) false
              (fun _ => SimpleExtractor.mkFrameEnv true false
                          (SimpleExtractor.Pixels [0; 0; 0; 0]%Z
                             (SimpleExtractor.Encoded "data:image/jpeg" None))
                          false false))
           SimpleExtractor.constructor = Some run
      /\ SimpleExtractor.result run = SimpleExtractor.Returned []).
Proof.
  split; [exact isEmpty_all_zero|].
  split; [|split; [|split]].
  - intros x fe i total t data enc Hseek Hshot Hempty.
    unfold SimpleExtractor.attempt. now rewrite Hseek, Hshot, Hempty.
  - intros fuel e duration total step i x data enc Hi Hx Hseek Hshot Hempty.
    cbn [SimpleExtractor.loop]. rewrite Hi, Hx. cbn [negb].
    unfold SimpleExtractor.attempt. rewrite Hseek, Hshot, Hempty. cbn [negb].
    destruct (SimpleExtractor.loop fuel e duration total step (S i) _)
      as [[[x' evs] done]|]; reflexivity.
  - intros ts inv index Hinv. unfold Server.settled. rewrite Hinv.
    now destruct (nth_error ts index).
  - eexists. eexists. split; [vm_compute; reflexivity|].
    split; [reflexivity|]. split; vm_compute; reflexivity.
Qed.

(** The buffer of a black 1x1 canvas is empty. *)
Lemma empty_frame_skipped_witness :
  SimpleExtractor.isEmpty [0; 0; 0; 0]%Z = true
  /\ SimpleExtractor.attempt SimpleExtractor.constructor
       (SimpleExtractor.mkFrameEnv true false
          (SimpleExtractor.Pixels [0; 0; 0; 0]%Z SimpleExtractor.EncodeThrows)
          false false)
       0 (Fin 1) (Fin 0)
     = (SimpleExtractor.constructor, [], true).
Proof.
  split.
  - apply (proj1 empty_frame_skipped). repeat constructor.
  - apply (proj1 (proj2 empty_frame_skipped)) with
      (data := [0; 0; 0; 0]%Z) (enc := SimpleExtractor.EncodeThrows);
      reflexivity.
Defined.

(* ================================================================== *)
(** * Frame-level failures *)
(* ================================================================== *)

Section AnyRun.

Import SimpleExtractor SimpleRun.

Variable e : env.
Variables duration step : num.
Variable total : Q.






End AnyRun.

Section ServerFrames.

Import Server.


End ServerFrames.




(* ================================================================== *)
(** * Cancelling the first extractor *)
(* ================================================================== *)

(** C3.  The first extractor, evaluated on a 1 s video (two planned
    frames) with progress and completion callbacks installed, when the host
    calls [cleanup()] during the first iteration.  The loop stops at its
    next check of [isProcessing], and the code after the loop then calls
    [onComplete] and returns normally.  In the first run [cleanup()] comes
    during the 50 ms delay that ends the iteration; in the second it comes
    while [toBlob] is pending, and the progress event of the frame is
    emitted after it as well. *)
Theorem cancelled_run_completes :
  (exists run t,
      SimpleExtractor.extractFrames 3
        (SimpleExtractor.mkEnv (SimpleExtractor.Metadata (Fin 1)) false
           (fun _ => SimpleExtractor.mkFrameEnv true false
                       (SimpleExtractor.Pixels [255%Z]
                          (SimpleExtractor.Encoded "data:image/jpeg" (Some "blob"%string)))
                       false true))
        (SimpleExtractor.mkExtractor [] [] (Fin 2) (Fin 30)
           false false false true true true) = Some run
      /\ SimpleExtractor.trace run
         = [SimpleExtractor.Log 1 (Fin 2) t;
            SimpleExtractor.Progress 1 (Fin 2) t;
            SimpleExtractor.Cleanup;
            SimpleExtractor.Complete []]
      /\ SimpleExtractor.result run = SimpleExtractor.Returned [])
  /\ (exists run t,
      SimpleExtractor.extractFrames 3
        (SimpleExtractor.mkEnv (SimpleExtractor.Metadata (Fin 1)) false
           (fun _ => SimpleExtractor.mkFrameEnv true false
                       (SimpleExtractor.Pixels [255%Z]
                          (SimpleExtractor.Encoded "data:image/jpeg" (Some "blob"%string)))
                       true false))
        (SimpleExtractor.mkExtractor [] [] (Fin 2) (Fin 30)
           false false false true true true) = Some run
      /\ SimpleExtractor.trace run
         = [SimpleExtractor.Log 1 (Fin 2) t;
            SimpleExtractor.Cleanup;
            SimpleExtractor.Progress 1 (Fin 2) t;
            SimpleExtractor.Complete []]
      /\ SimpleExtractor.result run = SimpleExtractor.Returned []).
Proof.
  split; (eexists; eexists; split; [vm_compute; reflexivity|]; split; reflexivity).
Qed.

(* ================================================================== *)
(** * The nearest seekable time *)
(* ================================================================== *)

Section NearestSeekable.

Import Seekable.

Variable t : Q.

(** What the loop knows after the end points [seen]: nothing yet, or the
    first end point at the least distance from the target. *)
Let settled (seen : list Q) (best : num * option num) : Prop :=
  (seen = [] /\ best = (PInf, None))
  \/ (exists p, best = (Fin (Qabs (p - t)), Some (Fin p))
               /\ In p seen
               /\ forall p', In p' seen -> Qabs (p - t) <= Qabs (p' - t)).

Lemma consider_settled (seen : list Q) (best : num * option num) (c : Q) :
  settled seen best -> settled (seen ++ [c]) (consider (Fin t) best (Fin c)).
Proof.
  intros [[-> ->] | [p [-> [Hin Hmin]]]]; right.
  - exists c. cbn. split; [reflexivity|]. split; [now left|].
    intros p' [<- | []]. apply Qle_refl.
  - unfold consider. cbn [nsub nabs fst nlt].
    destruct (Qle_bool (Qabs (p - t)) (Qabs (c - t))) eqn:E; cbn [negb].
    + apply Qle_bool_iff in E. exists p. split; [reflexivity|].
      split; [apply in_or_app; now left|].
      intros p' Hp'. apply in_app_or in Hp' as [Hp' | [<- | []]];
        [now apply Hmin | exact E].
    + assert (Hlt : Qabs (c - t) < Qabs (p - t)).
      { apply Qnot_le_lt. intro H. apply Qle_bool_iff in H. congruence. }
      exists c. split; [reflexivity|].
      split; [apply in_or_app; right; now left|].
      intros p' Hp'. apply in_app_or in Hp' as [Hp' | [<- | []]].
      * apply Qlt_le_weak. eapply Qlt_le_trans; [exact Hlt | now apply Hmin].
      * apply Qle_refl.
Qed.

Lemma scan_settled (bounds : list (Q * Q)) :
  forall seen best,
    settled seen best ->
    settled (seen ++ end_points bounds)
            (fold_left (scan (Fin t)) (map of_bounds bounds) best).
Proof.
  induction bounds as [|b bounds IH]; intros seen best H; cbn [map fold_left].
  - unfold end_points. cbn. now rewrite app_nil_r.
  - unfold end_points. cbn [flat_map].
    replace (seen ++ ([fst b; snd b] ++ flat_map (fun b0 => [fst b0; snd b0]) bounds))
      with (((seen ++ [fst b]) ++ [snd b]) ++ end_points bounds)
      by (unfold end_points; now rewrite <- !app_assoc).
    apply IH. unfold scan, of_bounds. cbn [start finish].
    now apply consider_settled, consider_settled.
Qed.

Lemma contains_bounds (b : Q * Q) :
  contains (Fin t) (of_bounds b) = Qle_bool (fst b) t && Qle_bool t (snd b).
Proof. reflexivity. Qed.

Lemma find_contains_none (bounds : list (Q * Q)) :
  (forall b, In b bounds -> ~ (fst b <= t <= snd b)) ->
  find (contains (Fin t)) (map of_bounds bounds) = None.
Proof.
  induction bounds as [|b bounds IH]; intro H; [reflexivity|].
  cbn [map find]. rewrite contains_bounds.
  destruct (Qle_bool (fst b) t && Qle_bool t (snd b)) eqn:E.
  - apply andb_true_iff in E as [E1 E2]. apply Qle_bool_iff in E1, E2.
    exfalso. apply (H b); [now left | now split].
  - apply IH. intros b' Hb'. apply H. now right.
Qed.

Lemma find_contains_some (bounds : list (Q * Q)) (b : Q * Q) :
  In b bounds -> fst b <= t <= snd b ->
  exists r, find (contains (Fin t)) (map of_bounds bounds) = Some r.
Proof.
  intros Hin [H1 H2]. induction bounds as [|b' bounds IH]; [contradiction|].
  cbn [map find].
  destruct (contains (Fin t) (of_bounds b')) eqn:E; [now eexists|].
  destruct Hin as [-> | Hin]; [|now apply IH].
  rewrite contains_bounds in E.
  apply Qle_bool_iff in H1, H2. rewrite H1, H2 in E. discriminate.
Qed.

End NearestSeekable.

Lemma in_end_points (bounds : list (Q * Q)) (p : Q) :
  In p (Seekable.end_points bounds)
  <-> exists b, In b bounds /\ (p = fst b \/ p = snd b).
Proof.
  unfold Seekable.end_points. rewrite in_flat_map. split.
  - intros [b [Hb [<- | [<- | []]]]]; exists b; auto.
  - intros [b [Hb [-> | ->]]]; exists b; cbn; auto.
Qed.

(** Outside every range the scan ends on an end point at the least distance. *)
Lemma nearest_end_point_aux (bounds : list (Q * Q)) (t : Q) :
  bounds <> [] ->
  (forall b, In b bounds -> ~ (fst b <= t <= snd b)) ->
  exists p,
    Seekable.getNearestSeekableTime
      (Some (map Seekable.of_bounds bounds)) (Fin t) = Fin p
    /\ (exists b, In b bounds /\ (p = fst b \/ p = snd b))
    /\ (forall p', In p' (Seekable.end_points bounds) ->
          Qabs (p - t) <= Qabs (p' - t)).
Proof.
  intros Hne Hout.
  pose proof (scan_settled t bounds [] (PInf, None) (or_introl (conj eq_refl eq_refl)))
    as H.
  cbn [app] in H.
  destruct H as [[Hnil _] | [p [Hbest [Hin Hmin]]]].
  - destruct bounds as [|b bounds]; [congruence | discriminate].
  - exists p. split.
    + unfold Seekable.getNearestSeekableTime.
      pose proof (find_contains_none t bounds Hout) as F.
      destruct (map Seekable.of_bounds bounds) as [|r rs] eqn:M.
      * destruct bounds; [congruence | discriminate].
      * rewrite F, Hbest. reflexivity.
    + split; [now apply in_end_points | exact Hmin].
Qed.



(** X2.  Without a video, a [seekable] object or any range, and when some
    range contains the target, [getNearestSeekableTime] returns the target
    itself.  With at least one (finite, well-formed) range the time it
    returns always lies inside one of the ranges, so asking again for the
    returned time gives the same time. *)
Theorem nearest_is_seekable :
  (forall targetTime,
      Seekable.getNearestSeekableTime None targetTime = targetTime
      /\ Seekable.getNearestSeekableTime (Some []) targetTime = targetTime)
  /\ (forall (bounds : list (Q * Q)) (t : Q) b,
      In b bounds -> fst b <= t <= snd b ->
      Seekable.getNearestSeekableTime
        (Some (map Seekable.of_bounds bounds)) (Fin t) = Fin t)
  /\ (forall (bounds : list (Q * Q)) (t : Q),
      bounds <> [] ->
      (forall b, In b bounds -> fst b <= snd b) ->
      exists p b,
        Seekable.getNearestSeekableTime
          (Some (map Seekable.of_bounds bounds)) (Fin t) = Fin p
        /\ In b bounds /\ fst b <= p <= snd b
        /\ Seekable.getNearestSeekableTime
             (Some (map Seekable.of_bounds bounds)) (Fin p) = Fin p).
Proof.
  assert (Hin : forall (bounds : list (Q * Q)) (t : Q) b,
             In b bounds -> fst b <= t <= snd b ->
             Seekable.getNearestSeekableTime
               (Some (map Seekable.of_bounds bounds)) (Fin t) = Fin t).
  { intros bounds t b Hb Ht.
    destruct (find_contains_some t bounds b Hb Ht) as [r Hr].
    unfold Seekable.getNearestSeekableTime. rewrite Hr.
    now destruct (map Seekable.of_bounds bounds). }
  split; [now split|]. split; [exact Hin|].
  intros bounds t Hne Hwf.
  assert (D : (exists b, In b bounds /\ fst b <= t <= snd b)
              \/ (forall b, In b bounds -> ~ (fst b <= t <= snd b))).
  { clear Hne Hwf. induction bounds as [|b bounds IH]; [now right|].
    destruct (Qle_bool (fst b) t && Qle_bool t (snd b)) eqn:E.
    - apply andb_true_iff in E as [E1 E2]. apply Qle_bool_iff in E1, E2.
      left. exists b. split; [now left | now split].
    - destruct IH as [[b' [Hb' Ht]] | IH].
      + left. exists b'. split; [now right | exact Ht].
      + right. intros b' [<- | Hb'] [H1 H2]; [|now apply (IH b')].
        apply Qle_bool_iff in H1, H2. rewrite H1, H2 in E. discriminate. }
  destruct D as [[b [Hb Ht]] | Hout].
  - exists t, b. rewrite (Hin bounds t b Hb Ht). auto.
  - destruct (nearest_end_point_aux bounds t Hne Hout) as [p [Hp [[b [Hb Hpb]] _]]].
    exists p, b. split; [exact Hp|]. split; [exact Hb|].
    assert (Hr : fst b <= p <= snd b).
    { specialize (Hwf b Hb). destruct Hpb as [-> | ->];
        split; try apply Qle_refl; exact Hwf. }
    split; [exact Hr|]. now apply (Hin bounds p b).
Qed.

(** Three ranges and a target before all of them. *)
Lemma nearest_is_seekable_witness :
  exists p b,
    Seekable.getNearestSeekableTime
      (Some (map Seekable.of_bounds [(2, 3); (5, 9); (10, 12)])) (Fin 1) = Fin p
    /\ In b [(2, 3); (5, 9); (10, 12)] /\ fst b <= p <= snd b.
Proof.
  destruct (proj2 (proj2 nearest_is_seekable) [(2, 3); (5, 9); (10, 12)] 1)
    as [p [b [Hp [Hb [Hr _]]]]].
  - discriminate.
  - intros b [<- | [<- | [<- | []]]]; cbn; apply Qle_bool_iff; reflexivity.
  - exists p, b. auto.
Defined.

(* ================================================================== *)
(** * Rounding, scaling and clamping *)
(* ================================================================== *)

Section Rounding.

(** [Math.round] stays within half a unit. *)
Lemma round_near (q : Q) :
  q - (1 # 2) < inject_Z (Qfloor (q + (1 # 2)))
  /\ inject_Z (Qfloor (q + (1 # 2))) <= q + (1 # 2).
Proof.
  split.
  - pose proof (Qlt_floor (q + (1 # 2))) as H.
    rewrite inject_Z_plus in H. change (inject_Z 1) with 1 in H. lra.
  - apply Qfloor_le.
Qed.

(** An integer is the floor of everything in the unit interval above it. *)
Lemma floor_unique (q : Q) (z : Z) :
  inject_Z z <= q -> q < inject_Z (z + 1) -> Qfloor q = z.
Proof.
  intros H1 H2. apply Z.le_antisymm.
  - assert (H : inject_Z (Qfloor q) < inject_Z (z + 1))
      by (eapply Qle_lt_trans; [apply Qfloor_le | exact H2]).
    rewrite <- Zlt_Qlt in H. lia.
  - rewrite <- (Qfloor_Z z). now apply Qfloor_resp_le.
Qed.


Lemma positive_nonzero (q : Q) : 0 < q -> ~ q == 0.
Proof. intros H E. rewrite E in H. now apply Qlt_irrefl in H. Qed.

End Rounding.

Section ScaledHeight.

(** A frame of [w] by [h] pixels, scaled to the width [p]; [ideal] is the
    height that keeps the aspect ratio, [p * h / w]. *)
Variables w h p ideal : Q.
Hypothesis w_min : 1 <= w.
Hypothesis w_max : w <= 2 ^ 32.
Hypothesis h_min : 1 <= h.
Hypothesis h_max : h <= 2 ^ 32.
Hypothesis p_min : 1 <= p.
Hypothesis p_max : p <= 2 ^ 32.
Hypothesis ideal_height : ideal * w == p * h.

(** The height before [Math.round]: two rounded quotients put it within a
    relative error of about 2^-52 of the ideal height. *)
Lemma scaled_height :
  exists c,
    Double.div (Fin p) (Double.div (Fin w) (Fin h)) = Fin c
    /\ 0 <= c
    /\ ideal * (1 - (1 # 9007199254740992)) <= c * (1 + (1 # 9007199254740992))
    /\ c * (1 - (1 # 9007199254740992)) <= ideal * (1 + (1 # 9007199254740992)).
Proof.
  assert (O : Double.pow2 (- 32) <= 1) by (apply Qle_bool_iff; reflexivity).
  assert (Pw : 0 < w) by lra.
  assert (W1 : Double.pow2 (- 32) <= w) by exact (Qle_trans _ _ _ O w_min).
  assert (H1 : Double.pow2 (- 32) <= h) by exact (Qle_trans _ _ _ O h_min).
  assert (P1 : Double.pow2 (- 32) <= p) by exact (Qle_trans _ _ _ O p_min).
  destruct (quotient_value w h 32 32 ltac:(lia) ltac:(lia) W1 w_max H1 h_max)
    as [a [Va [La [Ua [A1 A2]]]]].
  rewrite Va.
  assert (La' : Double.pow2 (- 65) <= a) by exact La.
  assert (Ua' : a <= Double.pow2 65)
    by (eapply Qle_trans; [exact Ua | apply pow2_le; lia]).
  destruct (quotient_value p a 32 65 ltac:(lia) ltac:(lia) P1 p_max La' Ua')
    as [c [Vc [Lc [_ [C1 C2]]]]].
  assert (Pa : 0 < a) by (eapply Qlt_le_trans; [apply pow2_pos | exact La]).
  assert (Pc : 0 < c) by (eapply Qlt_le_trans; [apply pow2_pos | exact Lc]).
  exists c. split; [exact Vc|]. split; [now apply Qlt_le_weak|].
  assert (Ph : 0 <= h) by lra.
  split.
  - apply (Qmult_le_r _ _ w Pw).
    apply Qle_trans with (c * a * h).
    + setoid_replace (ideal * (1 - (1 # 9007199254740992)) * w)
        with (p * (1 - (1 # 9007199254740992)) * h)
        by (rewrite <- (Qmult_assoc p), (Qmult_comm _ h), Qmult_assoc,
              <- ideal_height; ring).
      now apply Qmult_le_compat_r.
    + setoid_replace (c * a * h) with (c * (a * h)) by ring.
      setoid_replace (c * (1 + (1 # 9007199254740992)) * w)
        with (c * (w * (1 + (1 # 9007199254740992)))) by ring.
      apply Qmult_le_l; assumption.
  - apply (Qmult_le_r _ _ w Pw).
    apply Qle_trans with (c * a * h).
    + setoid_replace (c * a * h) with (c * (a * h)) by ring.
      setoid_replace (c * (1 - (1 # 9007199254740992)) * w)
        with (c * (w * (1 - (1 # 9007199254740992)))) by ring.
      apply Qmult_le_l; assumption.
    + setoid_replace (ideal * (1 + (1 # 9007199254740992)) * w)
        with (p * (1 + (1 # 9007199254740992)) * h)
        by (rewrite <- (Qmult_assoc p), (Qmult_comm _ h), Qmult_assoc,
              <- ideal_height; ring).
      now apply Qmult_le_compat_r.
Qed.

End ScaledHeight.

(** X3.  For sizes between 1 and 2^32 pixels [calculateScaledDimensions]
    leaves a frame that is not wider than [maxWidth] untouched; a wider
    frame gets the width [maxWidth] and a whole-number height within half a
    pixel, and the rounding error of the two quotients (a relative 2^-51),
    of the height that keeps the aspect ratio, [maxWidth * height /
    width]. *)
Theorem scaled_dimensions :
  forall w h mw : Q,
    1 <= w -> w <= 2 ^ 32 -> 1 <= h -> h <= 2 ^ 32 -> 1 <= mw -> mw <= 2 ^ 32 ->
    (w <= mw ->
     Dimensions.calculateScaledDimensions (Fin w) (Fin h) (Fin mw)
     = Dimensions.mkSize (Fin w) (Fin h))
    /\ (mw < w ->
        exists z : Z,
          Dimensions.calculateScaledDimensions (Fin w) (Fin h) (Fin mw)
          = Dimensions.mkSize (Fin mw) (Fin (inject_Z z))
          /\ mw * h / w * (1 - Double.pow2 (-51)) - (1 # 2) < inject_Z z
          /\ inject_Z z <= mw * h / w * (1 + Double.pow2 (-51)) + (1 # 2)).
Proof.
  intros w h mw Hw1 Hw2 Hh1 Hh2 Hm1 Hm2.
  unfold Dimensions.calculateScaledDimensions.
  cbn [nlt]. split; intro H.
  - apply Qle_bool_iff in H. now rewrite H.
  - replace (Qle_bool w mw) with false
      by (symmetry; apply not_true_iff_false; intro E;
          apply Qle_bool_iff in E; apply (Qlt_not_le _ _ H E)).
    cbn [negb].
    assert (I : mw * h / w * w == mw * h) by (field; lra).
    destruct (scaled_height w h mw (mw * h / w) Hw1 Hw2 Hh1 Hh2 Hm1 Hm2 I)
      as [c [Vc [Pc [C1 C2]]]].
    rewrite Vc. cbn [nround]. eexists. split; [reflexivity|].
    destruct (round_near c) as [R1 R2].
    assert (Pi : 0 <= mw * h / w).
    { apply Qle_shift_div_l; [lra|]. rewrite Qmult_0_l.
      apply Qmult_le_0_compat; lra. }
    change (Double.pow2 (-51)) with (1 # 2251799813685248).
    set (ideal := mw * h / w) in *. clearbody ideal.
    set (z := inject_Z (Qfloor (c + (1 # 2)))) in *. clearbody z.
    split; lra.
Qed.

(** A 1920x1080 frame scaled to 640 wide is 360 high, and a 768x273 frame
    227 high: the quotient 640 / (768 / 273) is rounded to a double just
    below 227.5. *)
Lemma scaled_dimensions_witness :
  (exists z : Z,
      Dimensions.calculateScaledDimensions (Fin 1920) (Fin 1080) (Fin 640)
      = Dimensions.mkSize (Fin 640) (Fin (inject_Z z))
      /\ 640 * 1080 / 1920 * (1 - Double.pow2 (-51)) - (1 # 2) < inject_Z z
      /\ inject_Z z <= 640 * 1080 / 1920 * (1 + Double.pow2 (-51)) + (1 # 2))
  /\ Dimensions.calculateScaledDimensions (Fin 1920) (Fin 1080) (Fin 640)
     = Dimensions.mkSize (Fin 640) (Fin 360)
  /\ Dimensions.calculateScaledDimensions (Fin 768) (Fin 273) (Fin 640)
     = Dimensions.mkSize (Fin 640) (Fin 227).
Proof.
  split; [|split; vm_compute; reflexivity].
  apply (proj2 (scaled_dimensions 1920 1080 640
                  ltac:(discriminate) ltac:(apply Qle_bool_iff; reflexivity)
                  ltac:(discriminate) ltac:(apply Qle_bool_iff; reflexivity)
                  ltac:(discriminate) ltac:(apply Qle_bool_iff; reflexivity))).
  reflexivity.
Defined.

(** X4.  For a width and a whole-number height between 1 and 2^32 pixels
    [calculateAspectRatio] computes the same size as
    [calculateScaledDimensions]; when the width or the height is 0 or not a
    number it falls back to [maxWidth] by [round(maxWidth * 9 / 16)]. *)
Theorem aspect_ratio_agrees :
  (forall (w mw : Q) (h : Z),
      1 <= w -> w <= 2 ^ 32 -> (1 <= h <= 2 ^ 32)%Z -> 0 < mw ->
      Dimensions.width
        (Dimensions.calculateAspectRatio (Fin w) (Fin (inject_Z h)) (Fin mw))
      =n= Dimensions.width
            (Dimensions.calculateScaledDimensions (Fin w) (Fin (inject_Z h)) (Fin mw))
      /\ Dimensions.height
           (Dimensions.calculateAspectRatio (Fin w) (Fin (inject_Z h)) (Fin mw))
         =n= Dimensions.height
               (Dimensions.calculateScaledDimensions (Fin w) (Fin (inject_Z h)) (Fin mw)))
  /\ (forall width height maxWidth,
      truthy width = false \/ truthy height = false ->
      Dimensions.calculateAspectRatio width height maxWidth
      = Dimensions.mkSize maxWidth
          (nround (Double.div (Double.mul maxWidth (Fin 9)) (Fin 16)))).
Proof.
  split.
  - intros w mw h Hw1 Hw2 Hh Hmw.
    assert (Hq1 : 1 <= inject_Z h)
      by (change 1 with (inject_Z 1); rewrite <- Zle_Qle; lia).
    assert (Hq2 : inject_Z h <= 2 ^ 32)
      by (change (2 ^ 32) with (inject_Z (2 ^ 32)); rewrite <- Zle_Qle; lia).
    unfold Dimensions.calculateAspectRatio, Dimensions.calculateScaledDimensions.
    replace (truthy (Fin w)) with true
      by (symmetry; cbn; apply negb_true_iff, not_true_iff_false; intro E;
          apply Qeq_bool_iff in E; apply (positive_nonzero w); [lra | exact E]).
    replace (truthy (Fin (inject_Z h))) with true
      by (symmetry; cbn -[inject_Z]; apply negb_true_iff, not_true_iff_false;
          intro E; apply Qeq_bool_iff in E;
          apply (positive_nonzero (inject_Z h)); [lra | exact E]).
    cbn [negb orb nmin nlt].
    destruct (Qle_bool w mw) eqn:E;
      cbn [negb Dimensions.width Dimensions.height].
    + apply Qle_bool_iff in E.
      assert (M : Qmin w mw == w) by (now apply Q.min_l).
      split; [exact M|].
      assert (M' : Qmin w mw = w).
      { unfold Qmin, GenericMinMax.gmin.
        destruct (Qcompare_spec w mw) as [C | C | C]; try reflexivity.
        exfalso. apply (Qlt_not_le _ _ C E). }
      rewrite M'.
      destruct (scaled_height w (inject_Z h) w (inject_Z h)
                  Hw1 Hw2 Hq1 Hq2 Hw1 Hw2 ltac:(ring))
        as [c [Vc [Pc [C1 C2]]]].
      rewrite Vc. cbn [nround num_eq].
      replace (Qfloor (c + (1 # 2))) with h; [reflexivity|].
      symmetry. apply floor_unique.
      * set (q := inject_Z h) in *. clearbody q.
        change (2 ^ 32) with 4294967296 in Hq2. lra.
      * rewrite inject_Z_plus. change (inject_Z 1) with 1.
        set (q := inject_Z h) in *. clearbody q.
        change (2 ^ 32) with 4294967296 in Hq2. lra.
    + assert (Hlt : mw < w).
      { apply Qnot_le_lt. intro H. apply Qle_bool_iff in H. congruence. }
      assert (M' : Qmin w mw = mw).
      { unfold Qmin, GenericMinMax.gmin.
        destruct (Qcompare_spec w mw) as [C | C | C]; try reflexivity; exfalso.
        - rewrite C in Hlt. now apply Qlt_irrefl in Hlt.
        - apply (Qlt_irrefl w). now apply Qlt_trans with mw. }
      rewrite M'. split; [apply Qeq_refl|].
      destruct (Double.div (Fin mw) (Double.div (Fin w) (Fin (inject_Z h))));
        cbn; try exact I; reflexivity.
  - intros width height maxWidth H.
    unfold Dimensions.calculateAspectRatio.
    destruct H as [-> | ->]; cbn [negb orb]; [reflexivity|].
    now rewrite orb_true_r.
Qed.

(** A 320x240 frame fits below 640 and is kept by both functions. *)
Lemma aspect_ratio_agrees_witness :
  Dimensions.height
    (Dimensions.calculateAspectRatio (Fin 320) (Fin (inject_Z 240)) (Fin 640))
  =n= Dimensions.height
        (Dimensions.calculateScaledDimensions (Fin 320) (Fin (inject_Z 240)) (Fin 640)).
Proof.
  apply (proj1 aspect_ratio_agrees 320 640 240%Z);
    try reflexivity; try discriminate; try lia.
Defined.

(* ================================================================== *)
(** * The loading overlay *)
(* ================================================================== *)

Lemma Qmin_inject (a b : Z) :
  Qmin (inject_Z a) (inject_Z b) = inject_Z (Z.min a b).
Proof.
  unfold Qmin, GenericMinMax.gmin, Qcompare, Z.min. cbn [Qnum Qden inject_Z].
  rewrite !Z.mul_1_r. now destruct (a ?= b)%Z.
Qed.

Lemma Qmax_inject (a b : Z) :
  Qmax (inject_Z a) (inject_Z b) = inject_Z (Z.max a b).
Proof.
  unfold Qmax, GenericMinMax.gmax, Qcompare, Z.max. cbn [Qnum Qden inject_Z].
  rewrite !Z.mul_1_r. now destruct (a ?= b)%Z.
Qed.

(** The clamp of a finite number, as an integer. *)
Lemma clamp_finite (q : Q) :
  LoadingOverlay.clamp (Fin q)
  = Fin (inject_Z (Z.max 0 (Z.min 100 (Qfloor (q + (1 # 2)))))).
Proof.
  unfold LoadingOverlay.clamp. cbn [nround nmin nmax].
  change 100 with (inject_Z 100). rewrite Qmin_inject.
  change 0 with (inject_Z 0). now rewrite Qmax_inject.
Qed.

Lemma round_nonneg (q : Q) : 0 <= q -> (0 <= Qfloor (q + (1 # 2)))%Z.
Proof.
  intro H. rewrite <- (Qfloor_Z 0). apply Qfloor_resp_le.
  change (inject_Z 0) with 0. lra.
Qed.

Lemma round_le (q : Q) (z : Z) : q <= inject_Z z -> (Qfloor (q + (1 # 2)) <= z)%Z.
Proof.
  intro H. apply Z.lt_succ_r. rewrite Zlt_Qlt.
  eapply Qle_lt_trans; [apply Qfloor_le|].
  unfold Z.succ. rewrite inject_Z_plus. change (inject_Z 1) with 1. lra.
Qed.

Lemma round_ge (q : Q) (z : Z) : inject_Z z <= q -> (z <= Qfloor (q + (1 # 2)))%Z.
Proof.
  intro H. rewrite <- (Qfloor_Z z). apply Qfloor_resp_le. lra.
Qed.

(** X5.  Whatever number [updateProgress] is given, the percentage it shows
    is a whole number from 0 to 100: the rounded input when that lies in
    the range, 0 below it (and for minus infinity), 100 above it (and for
    plus infinity).  Only [NaN] is passed through. *)
Theorem clamp_range :
  (forall percent,
      percent <> NaN ->
      exists z : Z,
        LoadingOverlay.clamp percent = Fin (inject_Z z) /\ (0 <= z <= 100)%Z)
  /\ (forall q : Q,
      0 <= q <= 100 ->
      LoadingOverlay.clamp (Fin q) = Fin (inject_Z (Qfloor (q + (1 # 2)))))
  /\ (forall q : Q, q < 0 -> LoadingOverlay.clamp (Fin q) = Fin 0)
  /\ (forall q : Q, 100 < q -> LoadingOverlay.clamp (Fin q) = Fin 100)
  /\ LoadingOverlay.clamp NaN = NaN.
Proof.
  split; [|split; [|split; [|split]]].
  - intros [q | | |] H.
    + eexists. split; [apply clamp_finite | lia].
    + exists 100%Z. split; [reflexivity | lia].
    + exists 0%Z. split; [reflexivity | lia].
    + congruence.
  - intros q [H0 H100]. rewrite clamp_finite.
    pose proof (round_nonneg q H0). pose proof (round_le q 100 H100).
    do 2 f_equal. lia.
  - intros q Hq. rewrite clamp_finite.
    assert (Qfloor (q + (1 # 2)) <= 0)%Z
      by (apply round_le; change (inject_Z 0) with 0; lra).
    change (Fin 0) with (Fin (inject_Z 0)). do 2 f_equal. lia.
  - intros q Hq. rewrite clamp_finite.
    assert (100 <= Qfloor (q + (1 # 2)))%Z
      by (apply round_ge; change (inject_Z 100) with 100; lra).
    change (Fin 100) with (Fin (inject_Z 100)). do 2 f_equal. lia.
  - reflexivity.
Qed.

(** 250 percent is shown as 100. *)
Lemma clamp_range_witness :
  LoadingOverlay.clamp (Fin 250) = Fin 100.
Proof.
  apply (proj1 (proj2 (proj2 (proj2 clamp_range)))). reflexivity.
Defined.

(** X6.  While the overlay is visible a further [show] is ignored: the
    title, the message and the cancel callback of the first call stay.  So
    after two calls of [show] on a hidden overlay, [handleCancel] calls the
    first callback (if it is a function), never the second, and leaves the
    overlay hidden with the page scrolling again; hiding twice is hiding
    once. *)
Theorem second_show_ignored :
  forall o t1 m1 c1 t2 m2 c2,
    LoadingOverlay.isVisible o = false ->
    let first := LoadingOverlay.show t1 m1 c1 o in
    LoadingOverlay.show t2 m2 c2 first = first
    /\ LoadingOverlay.title first = t1
    /\ LoadingOverlay.message first = m1
    /\ LoadingOverlay.isVisible first = true
    /\ LoadingOverlay.hiddenClass first = false
    /\ LoadingOverlay.bodyOverflow first = "hidden"%string
    /\ snd (LoadingOverlay.handleCancel (LoadingOverlay.show t2 m2 c2 first))
       = match c1 with LoadingOverlay.Function id => Some id | _ => None end
    /\ (let closed :=
          fst (LoadingOverlay.handleCancel (LoadingOverlay.show t2 m2 c2 first)) in
        LoadingOverlay.isVisible closed = false
        /\ LoadingOverlay.hiddenClass closed = true
        /\ LoadingOverlay.bodyOverflow closed = ""%string
        /\ LoadingOverlay.hide closed = closed).
Proof.
  intros o t1 m1 c1 t2 m2 c2 Hhidden first.
  assert (Hv : LoadingOverlay.isVisible first = true)
    by (unfold first, LoadingOverlay.show; now rewrite Hhidden).
  assert (Hs : LoadingOverlay.show t2 m2 c2 first = first)
    by (unfold LoadingOverlay.show at 1; now rewrite Hv).
  rewrite Hs. unfold first, LoadingOverlay.show. rewrite Hhidden.
  cbn. repeat split.
Qed.

(** A hidden overlay is shown twice, first with callback 1, then with
    callback 2. *)
Lemma second_show_ignored_witness :
  snd (LoadingOverlay.handleCancel
         (LoadingOverlay.show "Uploading" "second" (LoadingOverlay.Function 2)
            (LoadingOverlay.show "Processing" "first" (LoadingOverlay.Function 1)
               (LoadingOverlay.mkOverlay "" "" (Some (Fin 0)) (Some (Fin 0)) (Some ""%string)
                  true false LoadingOverlay.Null false ""))))
  = Some 1%nat.
Proof.
  apply (second_show_ignored
           (LoadingOverlay.mkOverlay "" "" (Some (Fin 0)) (Some (Fin 0)) (Some ""%string)
              true false LoadingOverlay.Null false "")
           "Processing" "first" (LoadingOverlay.Function 1)
           "Uploading" "second" (LoadingOverlay.Function 2) eq_refl).
Defined.

Section ExtractionPercent.

Variables current total : nat.
Hypothesis current_pos : (1 <= current)%nat.
Hypothesis current_le : (current <= total)%nat.

(** The rounded fraction, the percentage after [Math.round], its rounded
    product with the double 0.6, and what the overlay shows. *)
Let fraction : Q :=
  Double.round (inject_Z (Z.of_nat current) / inject_Z (Z.of_nat total)).
Let percent : Z := Qfloor (Double.round (fraction * 100) + (1 # 2)).
Let product : Q := Double.round (inject_Z percent * Double.round (6 # 10)).
Let shown : Z := Qfloor (product + (1 # 2)).

Lemma total_positive : 0 < inject_Z (Z.of_nat total).
Proof. change 0 with (inject_Z 0). rewrite <- Zlt_Qlt. lia. Qed.

Lemma fraction_value :
  Double.div (of_nat current) (of_nat total) = Fin fraction
  /\ 0 <= fraction /\ fraction <= 1.
Proof.
  pose proof total_positive as T.
  unfold Double.div, of_nat.
  replace (Qeq_bool (inject_Z (Z.of_nat total)) 0) with false
    by (symmetry; apply not_true_iff_false; intro E;
        apply Qeq_bool_iff in E; now apply (positive_nonzero _ T)).
  apply (number_nonneg _ 0); [lia | |].
  - apply Qle_shift_div_l; [exact T|].
    rewrite Qmult_0_l. change 0 with (inject_Z 0). rewrite <- Zle_Qle. lia.
  - apply Qle_shift_div_r; [exact T|].
    change (Double.pow2 0) with 1. rewrite Qmult_1_l, <- Zle_Qle. lia.
Qed.

Lemma scaled_value :
  Double.mul (Fin fraction) (Fin 100) = Fin (Double.round (fraction * 100))
  /\ 0 <= Double.round (fraction * 100)
  /\ Double.round (fraction * 100) <= 100.
Proof.
  destruct fraction_value as [_ [F0 F1]].
  unfold Double.mul.
  apply (number_between _ 0 100); try lia;
    [change (inject_Z 0) with 0 | change (inject_Z 100) with 100]; lra.
Qed.

Lemma percent_range : (0 <= percent <= 100)%Z.
Proof.
  destruct scaled_value as [_ [H0 H1]]. unfold percent. split.
  - now apply round_nonneg.
  - now apply round_le.
Qed.

Lemma shown_product_value :
  Double.mul (Fin (inject_Z percent)) (Fin (Double.round (6 # 10))) = Fin product
  /\ 0 <= product /\ product <= 60.
Proof.
  pose proof percent_range as [H0 H1].
  assert (A : 0 <= inject_Z percent)
    by (change 0 with (inject_Z 0); now rewrite <- Zle_Qle).
  assert (B : inject_Z percent <= 100)
    by (change 100 with (inject_Z 100); now rewrite <- Zle_Qle).
  assert (K0 : 0 <= Double.round (6 # 10))
    by (apply Qle_bool_iff; vm_compute; reflexivity).
  assert (K1 : 100 * Double.round (6 # 10) <= 61)
    by (apply Qle_bool_iff; vm_compute; reflexivity).
  assert (L : 0 <= inject_Z percent * Double.round (6 # 10))
    by (now apply Qmult_le_0_compat).
  assert (U : inject_Z percent * Double.round (6 # 10)
              <= 100 * Double.round (6 # 10))
    by (now apply Qmult_le_compat_r).
  unfold Double.mul.
  destruct (number_between (inject_Z percent * Double.round (6 # 10)) 0 61)
    as [V _]; try lia;
    [exact L | change (inject_Z 61) with 61; lra |].
  split; [exact V|]. split; [now apply double_nonneg|].
  setoid_replace 60 with (Double.round (100 * Double.round (6 # 10)))
    by (vm_compute; reflexivity).
  now apply double_mono.
Qed.

Lemma shown_range : (0 <= shown <= 60)%Z.
Proof.
  destruct shown_product_value as [_ [H0 H1]]. unfold shown. split.
  - now apply round_nonneg.
  - now apply round_le.
Qed.

Lemma extraction_percent_shown :
  LoadingOverlay.clamp
    (LoadingOverlay.extraction_percent (of_nat current) (of_nat total))
  = Fin (inject_Z shown).
Proof.
  unfold LoadingOverlay.extraction_percent.
  rewrite (proj1 fraction_value), (proj1 scaled_value).
  cbn [nround]. fold percent. rewrite (proj1 shown_product_value), clamp_finite.
  fold shown. pose proof shown_range. do 2 f_equal. lia.
Qed.

End ExtractionPercent.

(** X7.  The progress handler that the page installs on the extractor
    turns a progress event with 1 <= current <= total into an overlay
    percentage that is a whole number from 0 to 60, is 60 exactly when
    current = total, and never decreases as current grows. *)
Theorem extraction_progress_bounded :
  forall current later total : nat,
    (1 <= current)%nat -> (current <= later)%nat -> (later <= total)%nat ->
    exists z z' : Z,
      LoadingOverlay.clamp
        (LoadingOverlay.extraction_percent (of_nat current) (of_nat total))
      = Fin (inject_Z z)
      /\ LoadingOverlay.clamp
           (LoadingOverlay.extraction_percent (of_nat later) (of_nat total))
         = Fin (inject_Z z')
      /\ (0 <= z)%Z /\ (z <= z')%Z /\ (z' <= 60)%Z
      /\ (later = total -> z' = 60%Z).
Proof.
  intros current later total H1 H2 H3.
  assert (Hc : (current <= total)%nat) by lia.
  assert (Hl : (1 <= later)%nat) by lia.
  eexists. eexists.
  split; [now apply extraction_percent_shown|].
  split; [now apply extraction_percent_shown|].
  pose proof (shown_range current total H1 Hc) as [A _].
  pose proof (shown_range later total Hl H3) as [_ B].
  pose proof (total_positive later total Hl H3) as Ht.
  assert (K0 : 0 <= Double.round (6 # 10))
    by (apply Qle_bool_iff; vm_compute; reflexivity).
  split; [exact A|]. split; [|split; [exact B|]].
  - apply Qfloor_resp_le.
    assert (F : inject_Z (Z.of_nat current) / inject_Z (Z.of_nat total)
                <= inject_Z (Z.of_nat later) / inject_Z (Z.of_nat total)).
    { apply Qmult_le_compat_r.
      - rewrite <- Zle_Qle. lia.
      - apply Qlt_le_weak, Qinv_lt_0_compat, Ht. }
    apply double_mono in F.
    assert (G : Double.round
                  (Double.round (inject_Z (Z.of_nat current)
                                 / inject_Z (Z.of_nat total)) * 100)
                <= Double.round
                     (Double.round (inject_Z (Z.of_nat later)
                                    / inject_Z (Z.of_nat total)) * 100))
      by (apply double_mono, Qmult_le_compat_r; [exact F | discriminate]).
    assert (P : (Qfloor (Double.round
                           (Double.round (inject_Z (Z.of_nat current)
                                          / inject_Z (Z.of_nat total)) * 100)
                         + (1 # 2))
                 <= Qfloor (Double.round
                              (Double.round (inject_Z (Z.of_nat later)
                                             / inject_Z (Z.of_nat total)) * 100)
                            + (1 # 2)))%Z)
      by (apply Qfloor_resp_le; lra).
    rewrite Zle_Qle in P.
    apply Qplus_le_l, double_mono. now apply Qmult_le_compat_r.
  - intros ->.
    assert (E : inject_Z (Z.of_nat total) / inject_Z (Z.of_nat total) == 1)
      by (field; now apply positive_nonzero).
    assert (E1 : Double.round (inject_Z (Z.of_nat total) / inject_Z (Z.of_nat total))
                 == 1) by (rewrite E; reflexivity).
    assert (E2 : Double.round
                   (Double.round (inject_Z (Z.of_nat total)
                                  / inject_Z (Z.of_nat total)) * 100) == 100)
      by (rewrite E1; reflexivity).
    rewrite E2. change (Qfloor (100 + (1 # 2))) with 100%Z.
    vm_compute. reflexivity.
Qed.

(** The second and the fifth of five frames; and frame 23 of 40, which
    shows 34 %: 23 / 40 * 100 is the double just below 57.5. *)
Lemma extraction_progress_bounded_witness :
  (exists z z' : Z,
      LoadingOverlay.clamp
        (LoadingOverlay.extraction_percent (of_nat 2) (of_nat 5)) = Fin (inject_Z z)
      /\ LoadingOverlay.clamp
           (LoadingOverlay.extraction_percent (of_nat 5) (of_nat 5)) = Fin (inject_Z z')
      /\ (z <= z')%Z /\ z' = 60%Z)
  /\ LoadingOverlay.clamp
       (LoadingOverlay.extraction_percent (of_nat 23) (of_nat 40)) = Fin 34.
Proof.
  split; [|vm_compute; reflexivity].
  destruct (extraction_progress_bounded 2 5 5) as [z [z' [A [B [_ [C [_ D]]]]]]];
    try lia.
  exists z, z'. repeat split; auto.
Defined.

(* ================================================================== *)
(** * Time stamps for display *)
(* ================================================================== *)

Section FormatTime.

Import TimeFormat.








End FormatTime.



(* ================================================================== *)
(** * Probing and planning on the server *)
(* ================================================================== *)

(** The three tests of line 696 together say: a number greater than 0. *)
Lemma valid_duration_positive (d : num) :
  Server.valid_duration (Some d) = nlt (Fin 0) d.
Proof.
  destruct d as [q | | |]; try reflexivity.
  unfold Server.valid_duration. cbn [truthy isNaN negb nle nlt andb].
  rewrite andb_true_r.
  destruct (Qle_bool q 0) eqn:L; cbn [negb]; [apply andb_false_r|].
  rewrite andb_true_r. apply negb_true_iff, not_true_iff_false. intro E.
  apply Qeq_bool_iff in E.
  assert (H : Qle_bool q 0 = true) by (apply Qle_bool_iff; rewrite E; apply Qle_refl).
  congruence.
Qed.

(** X9.  A fast probe that yields a number greater than 0 decides the
    duration, whatever the fallback would say; otherwise the fallback's
    field is used, and [null] results when that probe fails or finds no
    field.  Whatever the two probes yield, [extractVideoFrames] plans and
    returns frames only for a duration greater than 0, and fails with
    'Invalid video duration' for everything else. *)
Theorem probed_duration_positive :
  forall fast fallback frameCount inv order,
    (forall d, fast = Probe.FastStdout d -> nlt (Fin 0) d = true ->
               Probe.getVideoDuration fast fallback = Some d)
    /\ (fast = Probe.FastFails
        \/ (exists d, fast = Probe.FastStdout d /\ nlt (Fin 0) d = false) ->
        Probe.getVideoDuration fast fallback
        = match fallback with
          | Probe.FallbackFails => None
          | Probe.FallbackStdout field => field
          end)
    /\ (forall fs,
          Server.extractVideoFrames (Probe.getVideoDuration fast fallback)
            frameCount inv order = inl fs ->
          exists d, Probe.getVideoDuration fast fallback = Some d
                    /\ nlt (Fin 0) d = true /\ fs <> [])
    /\ ((forall d, Probe.getVideoDuration fast fallback = Some d ->
                   nlt (Fin 0) d = false) ->
        Server.extractVideoFrames (Probe.getVideoDuration fast fallback)
          frameCount inv order
        = inr (Server.FailedToExtractFrames
                 (Server.InvalidVideoDuration
                    (Probe.getVideoDuration fast fallback)))).
Proof.
  intros fast fallback frameCount inv order.
  split; [|split; [|split]].
  - intros d -> Hd. unfold Probe.getVideoDuration.
    replace (isNaN d) with false by (now destruct d).
    now rewrite Hd.
  - intros [-> | [d [-> Hd]]]; unfold Probe.getVideoDuration;
      [reflexivity | now rewrite Hd, andb_false_r].
  - intros fs H. unfold Server.extractVideoFrames in H.
    destruct (Probe.getVideoDuration fast fallback) as [d|]; [|discriminate].
    rewrite valid_duration_positive in H.
    destruct (nlt (Fin 0) d) eqn:Hd; [|discriminate].
    exists d. split; [reflexivity|]. split; [exact Hd|].
    destruct (flat_map _ order) as [|f rest]; [discriminate|].
    inversion H. discriminate.
  - intro H. unfold Server.extractVideoFrames.
    destruct (Probe.getVideoDuration fast fallback) as [d|]; [|reflexivity].
    now rewrite valid_duration_positive, (H d eq_refl).
Qed.

(** The fast probe reports 12.5 s; the fallback is not consulted. *)
Lemma probed_duration_positive_witness :
  Probe.getVideoDuration (Probe.FastStdout (Fin (125 # 10))) Probe.FallbackFails
  = Some (Fin (125 # 10)).
Proof.
  apply (proj1 (probed_duration_positive
                  (Probe.FastStdout (Fin (125 # 10))) Probe.FallbackFails
                  0%nat (fun _ => Server.ExecFails) []) (Fin (125 # 10)));
    reflexivity.
Defined.

(* ================================================================== *)
(** * The artifacts of a batch *)
(* ================================================================== *)

Section ServerArtifacts.

Variable ts : list num.
Variable inv : nat -> Server.invocation.

Lemma settled_paths (index : nat) :
  map Server.path (Server.settled ts inv index) = [(index + 1)%nat]
  \/ Server.settled ts inv index = [].
Proof.
  unfold Server.settled.
  destruct (nth_error ts index); [|now right].
  destruct (inv index) as [| |bytes]; try now right.
  destruct (0 <? bytes)%Z; [now left | now right].
Qed.

Lemma framePaths_paths (order : list nat) :
  NoDup order ->
  NoDup (map Server.path (flat_map (Server.settled ts inv) order))
  /\ (forall p, In p (map Server.path (flat_map (Server.settled ts inv) order)) ->
                exists index, In index order /\ p = (index + 1)%nat)
  /\ (List.length (flat_map (Server.settled ts inv) order) <= List.length order)%nat.
Proof.
  induction order as [|index order IH]; intro Hnd.
  - cbn. repeat split; [constructor | intros p [] | lia].
  - inversion Hnd as [|? ? Hnotin Hnd']; subst.
    destruct (IH Hnd') as [IH1 [IH2 IH3]].
    cbn [flat_map]. rewrite map_app, length_app.
    destruct (settled_paths index) as [E | E].
    + rewrite E. assert (L : List.length (Server.settled ts inv index) = 1%nat)
        by (rewrite <- (length_map Server.path), E; reflexivity).
      rewrite L. cbn [app]. split; [|split].
      * constructor; [|exact IH1]. intro Hin.
        destruct (IH2 _ Hin) as [index' [Hin' Heq]].
        assert (index' = index) by lia. subst. contradiction.
      * intros p [<- | Hp]; [exists index; split; [now left | reflexivity]|].
        destruct (IH2 p Hp) as [index' [Hin' ->]].
        exists index'. split; [now right | reflexivity].
      * cbn. lia.
    + rewrite E. cbn [map app List.length]. split; [exact IH1|]. split; [|lia].
      intros p Hp. destruct (IH2 p Hp) as [index' [Hin' ->]].
      exists index'. split; [now right | reflexivity].
Qed.

End ServerArtifacts.

(** X11.  When every invocation of a batch settles once, the frames that
    [extractVideoFrames] returns are written to pairwise different files
    [frame-1.jpg] .. [frame-<frameCount>.jpg], and there are at most
    frameCount of them. *)
Theorem batch_frames_distinct :
  forall duration frameCount inv order fs,
    Permutation order (seq 0 frameCount) ->
    Server.extractVideoFrames duration frameCount inv order = inl fs ->
    NoDup (map Server.path fs)
    /\ (forall f, In f fs -> (1 <= Server.path f <= frameCount)%nat)
    /\ (1 <= List.length fs <= frameCount)%nat.
Proof.
  intros duration frameCount inv order fs Hperm H.
  unfold Server.extractVideoFrames in H.
  destruct duration as [d|]; [|discriminate].
  destruct (Server.valid_duration (Some d)); [|discriminate].
  assert (Hnd : NoDup order)
    by (apply (Permutation_NoDup (Permutation_sym Hperm)), seq_NoDup).
  destruct (framePaths_paths (Server.timestamps d frameCount) inv order Hnd)
    as [P1 [P2 P3]].
  rewrite (Permutation_length Hperm), length_seq in P3.
  destruct (flat_map _ order) as [|f0 rest] eqn:E; [discriminate|].
  cbn [List.length Nat.eqb] in H. inversion H; subst fs.
  split; [exact P1|]. split.
  - intros f Hf.
    destruct (P2 (Server.path f) (in_map Server.path _ _ Hf)) as [index [Hin ->]].
    apply (Permutation_in _ Hperm) in Hin. apply in_seq in Hin. lia.
  - cbn [List.length] in *. lia.
Qed.

(** Three invocations of which the second leaves an empty artifact. *)
Lemma batch_frames_distinct_witness :
  exists fs,
    Server.extractVideoFrames (Some (Fin 10)) 3
      (fun index => if (index =? 1)%nat then Server.Artifact 0 else Server.Artifact 9)
      [2; 0; 1]%nat = inl fs
    /\ NoDup (map Server.path fs).
Proof.
  eexists. split; [reflexivity|].
  apply (batch_frames_distinct (Some (Fin 10)) 3%nat
           (fun index => if (index =? 1)%nat then Server.Artifact 0 else Server.Artifact 9)
           [2; 0; 1]%nat).
  - apply Permutation_sym.
    apply (perm_trans (l' := [0; 2; 1]%nat)).
    + apply perm_skip, perm_swap.
    + apply perm_swap.
  - reflexivity.
Defined.

(* ================================================================== *)
(** * Starting the second extractor again *)
(* ================================================================== *)

(** X15.  Whatever state the second extractor is in, the page's sequence
    [cleanup(); reset(); extractFrames(...)] starts a run: the guard
    'Extraction already in progress' cannot fire, the run begins with empty
    frame lists and a clear cancel flag, and video, canvas, context and
    object URL are in place.  [cleanup()] alone is enough to pass the
    guard, and doing it twice changes nothing more.  [reset()] itself
    leaves the cancel flag set, because it calls [cleanup()] after it has
    cleared the flag. *)
Theorem restart_always_starts :
  forall i o,
    (exists j,
        SequenceLifecycle.start o
          (SequenceLifecycle.reset (SequenceLifecycle.cleanup i)) = inl j
        /\ SequenceLifecycle.core j
           = SequenceExtractor.begin_run o (SequenceLifecycle.core i)
        /\ SequenceLifecycle.video j = true
        /\ SequenceLifecycle.canvas j = true
        /\ SequenceLifecycle.ctx j = true
        /\ SequenceLifecycle.videoUrl j = true)
    /\ (exists j,
        SequenceLifecycle.start o (SequenceLifecycle.cleanup i) = inl j
        /\ SequenceLifecycle.core j
           = SequenceExtractor.begin_run o (SequenceLifecycle.core i))
    /\ SequenceLifecycle.cleanup (SequenceLifecycle.cleanup i)
       = SequenceLifecycle.cleanup i
    /\ SequenceExtractor.cancelled
         (SequenceLifecycle.core (SequenceLifecycle.reset i)) = true
    /\ SequenceExtractor.isProcessing
         (SequenceLifecycle.core (SequenceLifecycle.reset i)) = false.
Proof.
  intros [[fs ps fr md q ip c op oc oe] v cv cx vu] o.
  split; [|split; [|split; [|split]]]; cbn.
  - eexists. split; [reflexivity|]. repeat split.
  - eexists. split; reflexivity.
  - now destruct cv.
  - reflexivity.
  - reflexivity.
Qed.

(* ================================================================== *)
(** * Every run of the first extractor *)
(* ================================================================== *)

Section EveryRun.

Import SimpleExtractor SimpleRun SimpleTraces Traces.






End EveryRun.



Section ProgressOrder.

Import SimpleExtractor SimpleRun SimpleTraces Traces.

Variable e : env.
Variables duration step : num.
Variable total : Q.

Lemma mark_currents (b : bool) : flat_map simple_current (mark b) = [].
Proof. now destruct b. Qed.

Lemma attempt_currents (x : extractor) (i : nat) (t : num) :
  let evs := snd (fst (attempt x (frame e i) i (Fin total) t)) in
  (flat_map simple_current evs = [S i] \/ flat_map simple_current evs = [])
  /\ forall c T u, In (Progress c T u) evs -> T = Fin total.
Proof.
  unfold attempt.
  assert (M : forall b c T u, ~ In (Progress c T u) (mark b))
    by (intros b c T u H; destruct b;
        [destruct H as [H | []]; discriminate H | contradiction]).
  destruct (negb (seeked (frame e i))); cbn [fst snd];
    try (split; [right; apply mark_currents | intros c T u H; now apply M in H]).
  destruct (shot (frame e i)) as [|data [|dataUrl blobData]]; cbn [fst snd];
    try (split; [right; apply mark_currents | intros c T u H; now apply M in H]);
    destruct (isEmpty data); cbn [fst snd];
    try (split; [right; apply mark_currents | intros c T u H; now apply M in H]).
  rewrite !flat_map_app, !mark_currents.
  match goal with |- context [if ?b then _ else _] => destruct b end;
    cbn [flat_map simple_current app].
  - split. { left. reflexivity. }
    intros c T u H.
    apply in_app_or in H as [H | H]; [now apply M in H|].
    apply in_app_or in H as [H | H]; [now apply M in H|].
    destruct H as [H | H]; [now inversion H | now apply M in H].
  - split. { right. reflexivity. }
    intros c T u H.
    apply in_app_or in H as [H | H]; [now apply M in H|].
    apply in_app_or in H as [H | H]; [now apply M in H|].
    now apply M in H.
Qed.

(** The progress events of the loop count upwards and stay within the
    number of planned indices. *)
Lemma loop_currents :
  forall fuel i x x' evs done,
    loop fuel e duration (Fin total) step i x = Some (x', evs, done) ->
    StronglySorted lt (flat_map simple_current evs)
    /\ Forall (fun c => (i < c <= Z.to_nat (Qceiling total))%nat)
              (flat_map simple_current evs)
    /\ (forall c T u, In (Progress c T u) evs -> T = Fin total).
Proof.
  induction fuel as [|fuel IH]; intros i x x' evs done H; [discriminate|].
  cbn [loop] in H.
  destruct (nlt (of_nat i) (Fin total)) eqn:L;
    [|inversion H; subst; repeat split; try constructor; intros c T u []].
  destruct (negb (isProcessing x));
    [inversion H; subst; repeat split; try constructor; intros c T u []|].
  apply of_nat_lt in L.
  pose proof (attempt_currents x i (frame_time duration step i)) as [A1 A2].
  destruct (attempt x (frame e i) i (Fin total) (frame_time duration step i))
    as [[x1 evs1] [|]]; cbn [fst snd] in A1, A2.
  - destruct (loop fuel e duration (Fin total) step (S i) x1)
      as [[[x2 evs2] done2]|] eqn:E; [|discriminate].
    inversion H; subst. destruct (IH _ _ _ _ _ E) as [I1 [I2 I3]].
    cbn [flat_map simple_current app].
    rewrite flat_map_app.
    assert (W : Forall (fun c => (i < c <= Z.to_nat (Qceiling total))%nat)
                       (flat_map simple_current evs2)).
    { eapply Forall_impl; [|exact I2]. cbn. intros c Hc. lia. }
    split; [|split].
    + destruct A1 as [-> | ->]; cbn [app]; [|exact I1].
      constructor; [exact I1|].
      eapply Forall_impl; [|exact I2]. cbn. intros c Hc. lia.
    + destruct A1 as [-> | ->]; cbn [app]; [|exact W].
      constructor; [lia | exact W].
    + intros c T u [Hin | Hin]; [discriminate Hin|].
      apply in_app_or in Hin as [Hin | Hin];
        [now apply (A2 c T u) | now apply (I3 c T u)].
  - inversion H; subst. cbn [flat_map simple_current app].
    split; [|split].
    + destruct A1 as [-> | ->]; repeat constructor.
    + destruct A1 as [-> | ->]; repeat constructor; lia.
    + intros c T u [Hin | Hin]; [discriminate Hin | now apply (A2 c T u)].
Qed.

End ProgressOrder.

(** X17.  In every run of the first extractor, whatever the captures and
    the host do, the [current] values of the progress events increase
    strictly, lie between 1 and the number of planned indices
    ceil(effectiveDuration * rate), and every event carries the same
    [total].  The cap rate * maxDuration is at most 2^53 frames. *)
Theorem simple_progress_increasing :
  forall (d r m : Q) e x fuel run,
    0 < d -> 0 < r -> 0 < m -> r * m <= 2 ^ 53 ->
    SimpleExtractor.isProcessing x = false ->
    SimpleExtractor.frameRate x = Fin r ->
    SimpleExtractor.maxDuration x = Fin m ->
    SimpleExtractor.load e = SimpleExtractor.Metadata (Fin d) ->
    SimpleExtractor.extractFrames fuel e x = Some run ->
    StronglySorted lt (flat_map Traces.simple_current (SimpleExtractor.trace run))
    /\ Forall (fun c => (1 <= c <= Z.to_nat (Spec.totalFrames d r m))%nat)
              (flat_map Traces.simple_current (SimpleExtractor.trace run))
    /\ (forall c T u,
          In (SimpleExtractor.Progress c T u) (SimpleExtractor.trace run) ->
          T = Fin (Qmin (inject_Z (Spec.totalFrames d r m)) (Double.round (r * m)))).
Proof.
  intros d r m e x fuel run Hd Hr Hm Hcap Hidle Hrate Hmax Hload Hrun.
  unfold SimpleExtractor.extractFrames in Hrun. rewrite Hidle, Hload in Hrun.
  unfold SimpleExtractor.loadVideo in Hrun.
  set (x1 := SimpleExtractor.host _ (SimpleExtractor.begin_run x)) in *.
  assert (E1 : SimpleExtractor.frameRate x1 = Fin r)
    by (unfold x1; now destruct (SimpleExtractor.cleanup_during_load e)).
  assert (E2 : SimpleExtractor.maxDuration x1 = Fin m)
    by (unfold x1; now destruct (SimpleExtractor.cleanup_during_load e)).
  rewrite E1, E2, (plan_value d r m Hd Hr Hm Hcap) in Hrun.
  pose proof (total_indices d r m Hd Hr Hm Hcap) as Hn.
  unfold Spec.totalFrames, Spec.effectiveDuration.
  set (total := Qmin (inject_Z (Qceiling (Double.round (Qmin d m * r))))
                     (Double.round (r * m))) in *.
  assert (Mk : forall c T u b,
             ~ In (SimpleExtractor.Progress c T u) (SimpleExtractor.mark b))
    by (intros c T u b H; destruct b;
        [destruct H as [H | []]; discriminate H | contradiction]).
  destruct (Qle_bool total 0).
  { inversion Hrun; subst. cbn [SimpleExtractor.trace].
    rewrite flat_map_app, mark_currents. cbn [app].
    destruct (SimpleExtractor.onError x1); cbn [flat_map Traces.simple_current app].
    - split; [constructor|]. split; [constructor|].
      intros c T u Hin. apply in_app_or in Hin as [Hin | Hin];
        [now apply Mk in Hin | destruct Hin as [Hin | []]; discriminate Hin].
    - split; [constructor|]. split; [constructor|].
      intros c T u Hin. rewrite app_nil_r in Hin. now apply Mk in Hin. }
  match type of Hrun with
  | match ?call with _ => _ end = _ =>
      destruct call as [[[x3 evs] done]|] eqn:E
  end; [|discriminate].
  apply loop_currents in E. destruct E as [L1 [L2 L3]].
  rewrite Hn in L2.
  assert (L2' : Forall (fun c => (1 <= c <= Z.to_nat
                                    (Qceiling (Double.round (Qmin d m * r))))%nat)
                       (flat_map Traces.simple_current evs))
    by (eapply Forall_impl; [|exact L2]; cbn; intros c Hc; lia).
  destruct done; inversion Hrun; subst; cbn [SimpleExtractor.trace].
  - assert (C : flat_map Traces.simple_current
                  (if SimpleExtractor.onComplete x3
                   then [SimpleExtractor.Complete (SimpleExtractor.previewFrames x3)]
                   else []) = [])
      by (now destruct (SimpleExtractor.onComplete x3)).
    rewrite !flat_map_app, mark_currents, C, app_nil_r. cbn [app].
    split; [exact L1|]. split; [exact L2'|].
    intros c T u Hin.
    apply in_app_or in Hin as [Hin | Hin]; [now apply Mk in Hin|].
    apply in_app_or in Hin as [Hin | Hin]; [now apply (L3 c T u)|].
    destruct (SimpleExtractor.onComplete x3);
      [destruct Hin as [Hin | []]; discriminate Hin | contradiction].
  - rewrite !flat_map_app, mark_currents. cbn [app].
    split; [exact L1|]. split; [exact L2'|].
    intros c T u Hin.
    apply in_app_or in Hin as [Hin | Hin]; [now apply Mk in Hin|].
    now apply (L3 c T u).
Qed.

(** A 1 s run with two usable frames and a progress callback. *)
Lemma simple_progress_increasing_witness :
  exists run,
    SimpleExtractor.extractFrames 3
      (SimpleExtractor.mkEnv (SimpleExtractor.Metadata (Fin 1)) false
         (fun _ => SimpleExtractor.mkFrameEnv true false
                     (SimpleExtractor.Pixels [9%Z]
                        (SimpleExtractor.Encoded "data:image/jpeg" None))
                     false false))
      (SimpleExtractor.mkExtractor [] [] (Fin 2) (Fin 30)
         false false false true false false) = Some run
    /\ StronglySorted lt
         (flat_map Traces.simple_current (SimpleExtractor.trace run))
    /\ List.length (flat_map Traces.simple_current (SimpleExtractor.trace run))
       = 2%nat.
Proof.
  destruct (SimpleExtractor.extractFrames 3
      (SimpleExtractor.mkEnv (SimpleExtractor.Metadata (Fin 1)) false
         (fun _ => SimpleExtractor.mkFrameEnv true false
                     (SimpleExtractor.Pixels [9%Z]
                        (SimpleExtractor.Encoded "data:image/jpeg" None))
                     false false))
      (SimpleExtractor.mkExtractor [] [] (Fin 2) (Fin 30)
         false false false true false false)) as [run|] eqn:E;
    [|vm_compute in E; discriminate E].
  exists run. split; [reflexivity|].
  split.
  - exact (proj1 ((fun cap idle rate max loaded =>
                     simple_progress_increasing 1 2 30 _ _ _ run
                       eq_refl eq_refl eq_refl cap idle rate max loaded E)
                    ltac:(apply Qle_bool_iff; vm_compute; reflexivity)
                    eq_refl eq_refl eq_refl eq_refl)).
  - vm_compute in E. injection E as <-. reflexivity.
Defined.

Lemma flat_map_seq_ext {A : Type} (f g : nat -> list A) :
  forall len start,
    (forall k, (start <= k < start + len)%nat -> f k = g k) ->
    flat_map f (seq start len) = flat_map g (seq start len).
Proof.
  induction len as [|len IH]; intros start H; [reflexivity|].
  cbn [seq flat_map]. rewrite (H start) by lia.
  rewrite (IH (S start)); [reflexivity|]. intros k Hk. apply H. lia.
Qed.

(** X18.  In a run of the first extractor that the host does not interrupt
    and whose seeks complete, on an accepted plan, the returned frames are
    the planned timestamps of the usable captures, in plan order and each
    at most once: the result is a subsequence of the plan and never longer
    than it. *)
Theorem result_follows_plan :
  forall (d r m : Q) e x fuel,
    0 < d -> 0 < r -> 0 < m -> r * m <= 2 ^ 53 ->
    0 < Double.round (Qmin d m * r) ->
    SimpleExtractor.isProcessing x = false ->
    SimpleExtractor.frameRate x = Fin r ->
    SimpleExtractor.maxDuration x = Fin m ->
    SimpleExtractor.load e = SimpleExtractor.Metadata (Fin d) ->
    SimpleRun.uninterrupted e ->
    (Z.to_nat (Spec.totalFrames d r m) < fuel)%nat ->
    exists run ts fs,
      SimpleExtractor.extractFrames fuel e x = Some run
      /\ SimpleExtractor.timestamps fuel (Fin d) (Fin r) (Fin m)
         = SimpleExtractor.Planned ts
      /\ SimpleExtractor.result run = SimpleExtractor.Returned fs
      /\ map SimpleExtractor.time fs
         = flat_map
             (fun i =>
                if SimpleRun.usable (SimpleExtractor.shot (SimpleExtractor.frame e i))
                then [nth i ts NaN] else [])
             (seq 0 (List.length ts))
      /\ (List.length fs <= List.length ts)%nat.
Proof.
  intros d r m e x fuel Hd Hr Hm Hcap Hacc Hidle Hrate Hmax Hload Hquiet Hfuel.
  pose proof (run_uninterrupted d r m Hd Hr Hm Hcap e x Hidle Hrate Hmax Hload
                Hquiet fuel Hacc Hfuel) as Hrun.
  pose proof (timestamps_planned d r m Hd Hr Hm Hcap fuel Hacc Hfuel) as Hplan.
  unfold Spec.totalFrames, Spec.effectiveDuration in *.
  set (n := Z.to_nat (Qceiling (Double.round (Qmin d m * r)))) in *.
  set (eff := Qmin d m) in *.
  set (total := Qmin (inject_Z (Qceiling (Double.round (eff * r))))
                     (Double.round (r * m))) in *.
  set (step := Double.div (Fin eff) (Fin total)) in *.
  eexists. eexists. eexists.
  split; [exact Hrun|]. split; [exact Hplan|]. split; [reflexivity|].
  rewrite length_map, length_seq.
  assert (P : forall len start,
             map SimpleExtractor.time
               (flat_map (SimpleRun.previews_of e (Fin eff) step) (seq start len))
             = flat_map
                 (fun i =>
                    if SimpleRun.usable (SimpleExtractor.shot (SimpleExtractor.frame e i))
                    then [SimpleExtractor.frame_time (Fin eff) step i]
                    else [])
                 (seq start len)
             /\ (List.length
                   (flat_map (SimpleRun.previews_of e (Fin eff) step)
                             (seq start len)) <= len)%nat).
  { assert (One : forall k,
               map SimpleExtractor.time (SimpleRun.previews_of e (Fin eff) step k)
               = (if SimpleRun.usable (SimpleExtractor.shot (SimpleExtractor.frame e k))
                  then [SimpleExtractor.frame_time (Fin eff) step k]
                  else [])
               /\ (List.length (SimpleRun.previews_of e (Fin eff) step k) <= 1)%nat).
    { intro k. unfold SimpleRun.previews_of, SimpleRun.usable.
      destruct (SimpleExtractor.shot (SimpleExtractor.frame e k))
        as [|data [|dataUrl blobData]].
      - split; [reflexivity | cbn; lia].
      - split; [reflexivity | cbn; lia].
      - destruct (SimpleExtractor.isEmpty data); split;
          try reflexivity; cbn; lia. }
    induction len as [|len IH]; intro start; [split; [reflexivity | cbn; lia]|].
    destruct (IH (S start)) as [IH1 IH2]. destruct (One start) as [O1 O2].
    cbn [seq flat_map]. rewrite map_app, length_app, IH1, O1.
    split; [reflexivity | lia]. }
  destruct (P n 0%nat) as [P1 P2]. split; [|exact P2].
  rewrite P1. apply flat_map_seq_ext. intros k Hk.
  destruct (SimpleRun.usable _); [|reflexivity].
  f_equal.
  rewrite (nth_indep _ NaN (SimpleExtractor.frame_time (Fin eff) step 0))
    by (rewrite length_map, length_seq; lia).
  rewrite (map_nth (SimpleExtractor.frame_time (Fin eff) step)), seq_nth by lia.
  reflexivity.
Qed.

(** A 1 s video whose second frame is black: one frame, at the first
    planned timestamp. *)
Lemma result_follows_plan_witness :
  exists run ts fs,
    SimpleExtractor.extractFrames 3
      (SimpleExtractor.mkEnv (SimpleExtractor.Metadata (Fin 1)) false
         (fun i => SimpleExtractor.mkFrameEnv true false
                     (SimpleExtractor.Pixels (if (i =? 0)%nat then [7%Z] else [0%Z])
                        (SimpleExtractor.Encoded "data:image/jpeg" None))
                     false false))
      SimpleExtractor.constructor = Some run
    /\ SimpleExtractor.timestamps 3 (Fin 1) (Fin 2) (Fin 30)
       = SimpleExtractor.Planned ts
    /\ SimpleExtractor.result run = SimpleExtractor.Returned fs
    /\ (List.length fs <= List.length ts)%nat.
Proof.
  destruct (result_follows_plan 1 2 30
              (SimpleExtractor.mkEnv (SimpleExtractor.Metadata (Fin 1)) false
                 (fun i => SimpleExtractor.mkFrameEnv true false
                             (SimpleExtractor.Pixels
                                (if (i =? 0)%nat then [7%Z] else [0%Z])
                                (SimpleExtractor.Encoded "data:image/jpeg" None))
                             false false))
              SimpleExtractor.constructor 3%nat
              eq_refl eq_refl eq_refl
              ltac:(apply Qle_bool_iff; vm_compute; reflexivity)
              eq_refl eq_refl eq_refl eq_refl eq_refl)
    as [run [ts [fs [H1 [H2 [H3 [_ H4]]]]]]].
  - split; [reflexivity | intro k; repeat split].
  - vm_compute. lia.
  - exists run, ts, fs. auto.
Defined.

Section AfterCleanup.

Import SimpleExtractor SimpleRun SimpleTraces.

Variable e : env.
Variables duration total step : num.

(** A loop that is entered with [isProcessing] cleared does nothing. *)
Lemma loop_stopped :
  forall fuel i x x' evs done,
    isProcessing x = false ->
    loop fuel e duration total step i x = Some (x', evs, done) ->
    evs = [] /\ x' = x.
Proof.
  intros [|fuel] i x x' evs done Hx H; [discriminate|].
  cbn [loop] in H. rewrite Hx in H. cbn [negb] in H.
  destruct (nlt (of_nat i) total); inversion H; now subst.
Qed.

Lemma after_cleanup_app (l1 l2 : list event) :
  after_cleanup (l1 ++ l2)
  = if existsb is_cleanup l1 then after_cleanup l1 ++ l2 else after_cleanup l2.
Proof.
  induction l1 as [|ev l1 IH]; [reflexivity|].
  destruct ev; cbn [app after_cleanup existsb is_cleanup orb]; auto.
Qed.

Lemma mark_cleanup (b : bool) : existsb is_cleanup (mark b) = b.
Proof. now destruct b. Qed.

Lemma mark_after (b : bool) : after_cleanup (mark b) = [].
Proof. now destruct b. Qed.

Lemma after_cleanup_logs (l : list event) :
  filter is_log l = [] -> filter is_log (after_cleanup l) = [].
Proof.
  induction l as [|ev l IHl]; [reflexivity|]. intro Hl.
  destruct ev; cbn in *; try discriminate; auto.
Qed.

Lemma after_cleanup_progress (l : list event) :
  (List.length (filter is_progress (after_cleanup l))
   <= List.length (filter is_progress l))%nat.
Proof.
  induction l as [|ev l IHl]; [cbn; lia|].
  destruct ev; cbn; try lia; auto.
Qed.

(** One iteration: no new attempt is logged, at most one progress event is
    emitted, and a [cleanup()] during it leaves [isProcessing] cleared. *)
Lemma attempt_after (x : extractor) (fe : frame_env) (i : nat) (t : num) :
  let out := fst (attempt x fe i total t) in
  filter is_log (snd out) = []
  /\ (List.length (filter is_progress (snd out)) <= 1)%nat
  /\ (existsb is_cleanup (snd out) = true -> isProcessing (fst out) = false)
  /\ (isProcessing x = false -> isProcessing (fst out) = false).
Proof.
  unfold attempt.
  assert (L : forall b, filter is_log (mark b) = []) by (now intros []).
  assert (G : forall b, filter is_progress (mark b) = []) by (now intros []).
  assert (K : forall b y, existsb is_cleanup (mark b) = true ->
                          isProcessing (host b y) = false)
    by (intros [] y Hb; [reflexivity | discriminate Hb]).
  assert (Kf : forall b y, isProcessing y = false -> isProcessing (host b y) = false)
    by (intros [] y Hy; [reflexivity | exact Hy]).
  destruct (negb (seeked fe)); cbn [fst snd];
    try (rewrite L, G; repeat split; [cbn; lia | apply K | apply Kf]).
  destruct (shot fe) as [|data [|dataUrl blobData]]; cbn [fst snd];
    try (rewrite L, G; repeat split; [cbn; lia | apply K | apply Kf]);
    destruct (isEmpty data); cbn [fst snd];
    try (rewrite L, G; repeat split; [cbn; lia | apply K | apply Kf]).
  rewrite !filter_app, !L, !G, !existsb_app, !mark_cleanup.
  set (c1 := cleanup_during_seek fe). set (c2 := cleanup_during_blob fe).
  set (c3 := cleanup_during_delay fe).
  split; [|split; [|split]].
  - match goal with |- context [if ?b then _ else _] => destruct b end; reflexivity.
  - match goal with |- context [if ?b then _ else _] => destruct b end; cbn; lia.
  - assert (Q : existsb is_cleanup
                  (if onProgress
                        match blobData with
                        | Some b => push_frame (mkFile i b)
                                      (host c2 (push_preview (mkFrameData dataUrl t) (host c1 x)))
                        | None => host c2 (push_preview (mkFrameData dataUrl t) (host c1 x))
                        end
                   then [Progress (S i) total (toFixed2 t)] else []) = false)
      by (match goal with |- context [if ?b then _ else _] => destruct b end; reflexivity).
    rewrite Q. destruct c1, c2, c3, blobData; cbn; intro H;
      first [reflexivity | discriminate H].
  - intro Hx. destruct c1, c2, c3, blobData; cbn; auto.
Qed.

(** After the first [cleanup()] the loop logs no further attempt and emits
    at most one more progress event. *)
Lemma loop_after :
  forall fuel i x x' evs done,
    loop fuel e duration total step i x = Some (x', evs, done) ->
    filter is_log (after_cleanup evs) = []
    /\ (List.length (filter is_progress (after_cleanup evs)) <= 1)%nat.
Proof.
  induction fuel as [|fuel IH]; intros i x x' evs done H; [discriminate|].
  cbn [loop] in H.
  destruct (nlt (of_nat i) total); [|inversion H; subst; cbn; split; [reflexivity | lia]].
  destruct (negb (isProcessing x));
    [inversion H; subst; cbn; split; [reflexivity | lia]|].
  pose proof (attempt_after x (frame e i) i (frame_time duration step i))
    as [A1 [A2 [A3 _]]].
  destruct (attempt x (frame e i) i total (frame_time duration step i))
    as [[x1 evs1] [|]]; cbn [fst snd] in A1, A2, A3.
  - destruct (loop fuel e duration total step (S i) x1)
      as [[[x2 evs2] done2]|] eqn:E; [|discriminate].
    inversion H; subst. cbn [after_cleanup]. rewrite after_cleanup_app.
    destruct (existsb is_cleanup evs1) eqn:C.
    + destruct (loop_stopped _ _ _ _ _ _ (A3 eq_refl) E) as [-> _].
      rewrite app_nil_r.
      split; [now apply after_cleanup_logs|].
      pose proof (after_cleanup_progress evs1). lia.
    + now apply (IH _ _ _ _ _ E).
  - inversion H; subst. cbn [after_cleanup].
    split; [now apply after_cleanup_logs|].
    pose proof (after_cleanup_progress evs1). lia.
Qed.

End AfterCleanup.

(** X19.  In every run of the first extractor, once the host has called
    [cleanup()] no further capture is attempted: after that call the trace
    holds no log line of a new attempt and at most one progress event (the
    one of the iteration that was under way). *)
Theorem cleanup_stops_attempts :
  forall fuel e x run,
    SimpleExtractor.isProcessing x = false ->
    SimpleExtractor.extractFrames fuel e x = Some run ->
    filter SimpleTraces.is_log
      (SimpleTraces.after_cleanup (SimpleExtractor.trace run)) = []
    /\ (List.length
          (filter SimpleRun.is_progress
             (SimpleTraces.after_cleanup (SimpleExtractor.trace run))) <= 1)%nat.
Proof.
  intros fuel e x run Hidle Hrun.
  unfold SimpleExtractor.extractFrames in Hrun. rewrite Hidle in Hrun.
  destruct (SimpleExtractor.loadVideo _ (SimpleExtractor.load e))
    as [msg | [duration totalFrames]].
  - inversion Hrun; subst. cbn [SimpleExtractor.trace].
    rewrite after_cleanup_app, mark_cleanup, mark_after.
    destruct (SimpleExtractor.cleanup_during_load e),
      (SimpleExtractor.onError _); cbn; split; try reflexivity; lia.
  - match type of Hrun with
    | match ?call with _ => _ end = _ =>
        destruct call as [[[x3 evs] done]|] eqn:E
    end; [|discriminate].
    assert (Hc : forall tail : list SimpleExtractor.event,
               filter SimpleTraces.is_log tail = [] ->
               filter SimpleRun.is_progress tail = [] ->
               filter SimpleTraces.is_log
                 (SimpleTraces.after_cleanup
                    (SimpleExtractor.mark (SimpleExtractor.cleanup_during_load e)
                     ++ evs ++ tail)) = []
               /\ (List.length
                     (filter SimpleRun.is_progress
                        (SimpleTraces.after_cleanup
                           (SimpleExtractor.mark (SimpleExtractor.cleanup_during_load e)
                            ++ evs ++ tail))) <= 1)%nat).
    { intros tail T1 T2.
      assert (T3 : filter SimpleTraces.is_log (SimpleTraces.after_cleanup tail) = [])
        by (now apply after_cleanup_logs).
      assert (T4 : (List.length (filter SimpleRun.is_progress
                                   (SimpleTraces.after_cleanup tail)) <= 0)%nat)
        by (pose proof (after_cleanup_progress tail) as P; rewrite T2 in P; exact P).
      rewrite after_cleanup_app, mark_cleanup, mark_after.
      destruct (SimpleExtractor.cleanup_during_load e) eqn:C.
      - cbn [SimpleExtractor.host] in E.
        destruct ((fun stopped => loop_stopped _ _ _ _ _ _ _ _ _ _ stopped E) eq_refl)
          as [-> _].
        cbn [app]. rewrite T1, T2. split; [reflexivity | cbn; lia].
      - destruct (loop_after _ _ _ _ _ _ _ _ _ _ E) as [L1 L2].
        rewrite after_cleanup_app.
        destruct (existsb SimpleTraces.is_cleanup evs).
        + rewrite !filter_app, L1, T1, T2, length_app. cbn [app List.length].
          split; [reflexivity | lia].
        + split; [exact T3 | lia]. }
    destruct done; inversion Hrun; subst; cbn [SimpleExtractor.trace].
    + apply Hc; now destruct (SimpleExtractor.onComplete x3).
    + rewrite <- (app_nil_r evs). now apply Hc.
Qed.

(** The host cleans up during the delay after the first of two frames. *)
Lemma cleanup_stops_attempts_witness :
  exists run,
    SimpleExtractor.extractFrames 3
      (SimpleExtractor.mkEnv (SimpleExtractor.Metadata (Fin 1)) false
         (fun _ => SimpleExtractor.mkFrameEnv true false
                     (SimpleExtractor.Pixels [255%Z]
                        (SimpleExtractor.Encoded "data:image/jpeg" None))
                     false true))
      SimpleExtractor.constructor = Some run
    /\ filter SimpleTraces.is_log
         (SimpleTraces.after_cleanup (SimpleExtractor.trace run)) = [].
Proof.
  destruct (SimpleExtractor.extractFrames 3
      (SimpleExtractor.mkEnv (SimpleExtractor.Metadata (Fin 1)) false
         (fun _ => SimpleExtractor.mkFrameEnv true false
                     (SimpleExtractor.Pixels [255%Z]
                        (SimpleExtractor.Encoded "data:image/jpeg" None))
                     false true))
      SimpleExtractor.constructor) as [run|] eqn:E;
    [|vm_compute in E; discriminate E].
  exists run. split; [reflexivity|].
  exact (proj1 ((fun idle => cleanup_stops_attempts _ _ _ run idle E) eq_refl)).
Defined.

